(** * GhumaggerSnap: a verification development

    The repository is a media browser: a React client (under
    [frontend/src]) talking to a FastAPI backend ([backend/main.py]).
    The client is embedded function by function; the backend is not among
    the sources, so the parts of it that a property needs are modelled
    from the specification and marked as such.

    Conventions of the embedding:
    - a JavaScript string is the Rocq [string] of its UTF-8 bytes;
    - a JavaScript object used as a dictionary ([localStorage], request
      headers, the [typeIcon] table) is a [gmap string _];
    - asynchronous functions are computations in a state-and-exception
      monad over the browser state they touch; the network is an oracle
      handed to them;
    - React components are records of their hooks' state together with a
      render function and one transition per event handler and effect. *)

From Stdlib Require Import ZArith NArith List String Ascii Bool Lia.
From Stdlib Require Import Floats Uint63 DecimalString DecimalPos DecimalN.
From stdpp Require Import gmap strings list.

Local Open Scope string_scope.
Local Open Scope Z_scope.
Set Warnings "-register-all".

(** ** JavaScript values and built-ins used by the client *)
Module JS.

(** The double quote character, for messages that contain one. *)
Definition dquote : string := String (ascii_of_nat 34) EmptyString.

(** [String(n)] for an integer-valued Number. *)
Definition dec (z : Z) : string := NilEmpty.string_of_int (Z.to_int z).

(** Parsed JSON, as [res.json()] yields it. *)
Inductive Json :=
| JNull
| JBool (b : bool)
| JNum (z : Z)
| JStr (s : string)
| JArr (items : list Json)
| JObj (fields : list (string * Json)).

(** [obj.key]: [undefined] (here [None]) when the property is missing or
    the value is not an object. *)
Definition get (key : string) (j : Json) : option Json :=
  match j with
  | JObj fields => snd <$> List.find (fun kv => String.eqb (fst kv) key) fields
  | _ => None
  end.

(** ToBoolean. *)
Definition truthy (j : Json) : bool :=
  match j with
  | JNull => false
  | JBool b => b
  | JNum z => negb (z =? 0)
  | JStr s => negb (String.eqb s "")
  | JArr _ | JObj _ => true
  end.

Definition truthy_opt (o : option Json) : bool :=
  match o with Some j => truthy j | None => false end.

(** ToString, as [new Error(v)] and template literals apply it. *)
Fixpoint toString (j : Json) : string :=
  match j with
  | JNull => "null"
  | JBool true => "true"
  | JBool false => "false"
  | JNum z => dec z
  | JStr s => s
  | JArr items =>
      (fix join (l : list Json) : string :=
         match l with
         | [] => ""
         | [x] => match x with JNull => "" | _ => toString x end
         | x :: rest =>
             (match x with JNull => "" | _ => toString x end) +:+ "," +:+ join rest
         end) items
  | JObj _ => "[object Object]"
  end.

(** The message of the TypeError thrown when a property is read off
    [null]. *)
Definition null_has_no (key : string) : string :=
  "Cannot read properties of null (reading '" +:+ key +:+ "')".

(** Truthiness of a string-or-null, the shape of [localStorage.getItem]. *)
Definition truthy_str (o : option string) : bool :=
  match o with Some s => negb (String.eqb s "") | None => false end.

(** A string-or-null inside a template literal. *)
Definition show_str (o : option string) : string :=
  match o with Some s => s | None => "null" end.

(** [s.split(c)] for a one-character separator. *)
Fixpoint split_on (c : ascii) (s : string) : list string :=
  match s with
  | EmptyString => [""]
  | String a rest =>
      if Ascii.eqb a c then "" :: split_on c rest
      else match split_on c rest with
           | h :: t => String a h :: t
           | [] => [String a ""]
           end
  end.

Definition hex_digit (n : N) : ascii :=
  match n with
  | 0%N => "0" | 1%N => "1" | 2%N => "2" | 3%N => "3" | 4%N => "4"
  | 5%N => "5" | 6%N => "6" | 7%N => "7" | 8%N => "8" | 9%N => "9"
  | 10%N => "A" | 11%N => "B" | 12%N => "C" | 13%N => "D" | 14%N => "E"
  | _ => "F"
  end%char.

(** [%XX] for one byte. *)
Definition percent (c : ascii) : string :=
  let n := N_of_ascii c in
  String "%" (String (hex_digit (n / 16)) (String (hex_digit (n mod 16)) EmptyString)).

Definition is_alnum (c : ascii) : bool :=
  let n := N_of_ascii c in
  ((48 <=? n) && (n <=? 57) || (65 <=? n) && (n <=? 90) || (97 <=? n) && (n <=? 122))%N.

Definition one_of (set : string) (c : ascii) : bool :=
  existsb (Ascii.eqb c) (list_ascii_of_string set).

(** The characters [encodeURIComponent] leaves alone (ECMA-262, 19.2.6.5:
    uriUnescaped): letters, digits and [- _ . ! ~ * ' ( )]. *)
Definition uri_unreserved (c : ascii) : bool :=
  is_alnum c || one_of "-_.!~*'()" c.

(** [encodeURIComponent]: every byte of the UTF-8 form that is not
    unreserved becomes [%XX]. *)
Fixpoint encodeURIComponent (s : string) : string :=
  match s with
  | EmptyString => EmptyString
  | String c rest =>
      (if uri_unreserved c then String c EmptyString else percent c)
        +:+ encodeURIComponent rest
  end.

(** The application/x-www-form-urlencoded byte serializer behind
    [URLSearchParams.prototype.toString]: letters, digits and [* - . _]
    stay, a space becomes [+], everything else [%XX]. *)
Fixpoint form_urlencode (s : string) : string :=
  match s with
  | EmptyString => EmptyString
  | String c rest =>
      (if is_alnum c || one_of "*-._" c then String c EmptyString
       else if Ascii.eqb c " " then "+"
       else percent c)
        +:+ form_urlencode rest
  end.

(** [new URLSearchParams(...)] after a sequence of [set] calls on distinct
    names, serialized: [k1=v1&k2=v2...] in insertion order. *)
Fixpoint URLSearchParams_toString (params : list (string * string)) : string :=
  match params with
  | [] => ""
  | [(k, v)] => form_urlencode k +:+ "=" +:+ form_urlencode v
  | (k, v) :: rest =>
      form_urlencode k +:+ "=" +:+ form_urlencode v +:+ "&"
        +:+ URLSearchParams_toString rest
  end.

End JS.

(** ** The API client: [frontend/src/api.js] *)
Module Api.
Import JS.

Definition API : string := "/api".

(** The browser state the client touches: [localStorage], and how many
    times [window.location.reload()] was called. *)
Record World := {
  localStorage : gmap string string;
  reloads : nat;
}.

(** A settled promise: fulfilled with a value or rejected with an [Error]
    carrying a message. *)
Inductive Outcome (A : Type) :=
| Return (a : A)
| Throw (message : string).
Arguments Return {A} a.
Arguments Throw {A} message.

(** Computations over the browser state that may throw. *)
Definition M (A : Type) : Type := World -> World * Outcome A.

Definition ret {A} (a : A) : M A := fun w => (w, Return a).
Definition throw {A} (message : string) : M A := fun w => (w, Throw message).
Definition bind {A B} (m : M A) (k : A -> M B) : M B :=
  fun w =>
    match m w with
    | (w', Return a) => k a w'
    | (w', Throw e) => (w', Throw e)
    end.

Notation "x <- m ;; k" := (bind m (fun x => k))
  (at level 100, m at next level, right associativity).
Notation "m ;;; k" := (bind m (fun _ => k))
  (at level 100, right associativity).

(** *** Token helpers *)
Definition getItem (key : string) : M (option string) :=
  fun w => (w, Return (localStorage w !! key)).
Definition setItem (key value : string) : M unit :=
  fun w => ({| localStorage := <[key := value]> (localStorage w);
               reloads := reloads w |}, Return tt).
Definition removeItem (key : string) : M unit :=
  fun w => ({| localStorage := delete key (localStorage w);
               reloads := reloads w |}, Return tt).
Definition reload : M unit :=
  fun w => ({| localStorage := localStorage w; reloads := S (reloads w) |},
            Return tt).

Definition getToken : M (option string) := getItem "fs_token".
Definition setToken (t : string) : M unit := setItem "fs_token" t.
Definition clearAuth : M unit := removeItem "fs_token" ;;; removeItem "fs_user".

(** *** Requests and responses *)
Inductive Body :=
| TextBody (text : string)
| FormData.

Record Opts := {
  method : option string;
  headers : gmap string string;
  body : option Body;
}.

Definition no_opts : Opts := {| method := None; headers := ∅; body := None |}.

Record Request := {
  url : string;
  init : Opts;
}.

(** A response: its status and its body read as JSON ([None] when
    [res.json()] rejects). *)
Record Response := {
  status : Z;
  json : option Json;
}.

(** [res.ok]. *)
Definition ok (res : Response) : bool := (200 <=? status res) && (status res <=? 299).

(** What [fetch] settles to: a response of any status, or a rejection when
    the network fails. *)
Inductive Fetched :=
| Responded (res : Response)
| NetworkError (message : string).

(** A download the page has triggered: an anchor with [download] set,
    clicked, on a blob. *)
Record Saved := {
  saved_as : string;
  content : string;
}.

Definition is_FormData (b : option Body) : bool :=
  match b with Some FormData => true | _ => false end.

(** *** URL builders (token in query for [<img>]/[<video>])

    [token] is what [getToken()] returns when the URL is built. *)
Definition previewUrl (token : option string) (filePath : string) : string :=
  API +:+ "/files/preview?path=" +:+ encodeURIComponent filePath
      +:+ "&token=" +:+ show_str token.
Definition previewCompatUrl (token : option string) (filePath : string) : string :=
  API +:+ "/files/preview?path=" +:+ encodeURIComponent filePath
      +:+ "&compat=1&token=" +:+ show_str token.
Definition thumbnailUrl (token : option string) (filePath : string) : string :=
  API +:+ "/files/thumbnail?path=" +:+ encodeURIComponent filePath
      +:+ "&token=" +:+ show_str token.
Definition downloadUrl (token : option string) (filePath : string) : string :=
  API +:+ "/files/download?path=" +:+ encodeURIComponent filePath
      +:+ "&token=" +:+ show_str token.

(** A server that rejects every credential, and a browser that still holds
    an earlier session. *)
Definition always_401 (r : Request) : Fetched :=
  Responded {| status := 401; json := Some (JObj [("detail", JStr "Bad credentials")]) |}.

Definition stale_session : World :=
  {| localStorage := <["fs_user" := "{}"]> (<["fs_token" := "old.jwt.token"]> ∅);
     reloads := 0 |}.

Section Client.

(** The network: what [fetch] answers to a request. *)
Variable fetch : Request -> Fetched.
(** [JSON.stringify]. *)
Variable JSON_stringify : Json -> string.

Definition do_fetch (r : Request) : M Response :=
  match fetch r with
  | Responded res => ret res
  | NetworkError e => throw e
  end.

(** [setUser]: [undefined] is stored as the text "undefined". *)
Definition setUser (u : option Json) : M unit :=
  setItem "fs_user" (match u with Some j => JSON_stringify j | None => "undefined" end).

(** *** Generic fetch wrapper *)

(** The headers [req] sends: the caller's, then [Authorization] when a
    token is stored, then [Content-Type] unless the body is form data. *)
Definition req_headers (token : option string) (opts : Opts) : gmap string string :=
  let headers0 := headers opts in
  let headers1 :=
    if truthy_str token then <["Authorization" := "Bearer " +:+ show_str token]> headers0
    else headers0 in
  if negb (is_FormData (body opts)) then <["Content-Type" := "application/json"]> headers1
  else headers1.

(** The request [req] hands to [fetch]: [{ ...opts, headers }] at
    [API + path]. *)
Definition req_request (token : option string) (path : string) (opts : Opts) : Request :=
  {| url := API +:+ path;
     init := {| method := method opts; headers := req_headers token opts;
                body := body opts |} |}.

Definition req (path : string) (opts : Opts) : M Response :=
  token <- getToken ;;
  res <- do_fetch (req_request token path opts) ;;
  if status res =? 401 then
    clearAuth ;;; reload ;;; throw "Unauthorized"
  else if negb (ok res) then
    let err := match json res with
               | Some j => j
               | None => JObj [("detail", JStr "Request failed")]
               end in
    match err with
    | JNull => throw (null_has_no "detail")
    | _ =>
        throw (match get "detail" err with
               | Some d => if truthy d then toString d else "Request failed"
               | None => "Request failed"
               end)
    end
  else ret res.

(** [res.json()]. *)
Definition res_json (res : Response) : M Json :=
  match json res with
  | Some j => ret j
  | None => throw "Unexpected end of JSON input"
  end.

(** [JSON.stringify({ username, password })]: the serialized credentials. *)
Definition credentials (username password : string) : string :=
  JSON_stringify (JObj [("username", JStr username); ("password", JStr password)]).

(** *** Auth *)
Definition login_opts (username password : string) : Opts :=
  {| method := Some "POST"; headers := ∅;
     body := Some (TextBody (credentials username password)) |}.

Definition login (username password : string) : M Json :=
  res <- req "/auth/login" (login_opts username password) ;;
  data <- res_json res ;;
  match data with
  | JNull => throw (null_has_no "access_token")
  | _ =>
      setToken (match get "access_token" data with
                | Some t => toString t
                | None => "undefined"
                end) ;;;
      setUser (get "user" data) ;;;
      ret data
  end.

Definition getMe : M Json := res <- req "/auth/me" no_opts ;; res_json res.
Definition getUsers : M Json := res <- req "/auth/users" no_opts ;; res_json res.
Definition deleteUser (id : string) : M Json :=
  res <- req ("/auth/users/" +:+ id)
             {| method := Some "DELETE"; headers := ∅; body := None |} ;;
  res_json res.

(** *** Files (filesystem browser) *)
Record FileParams := {
  p_path : option string;
  p_search : option string;
  p_file_type : option string;
  p_sort : option string;
}.

(** [if (params.x) q.set('x', params.x)]: only non-empty strings are set. *)
Definition set_if (name : string) (value : option string) : list (string * string) :=
  match value with
  | Some v => if truthy_str (Some v) then [(name, v)] else []
  | None => []
  end.

Definition getFiles_query (params : FileParams) : string :=
  URLSearchParams_toString
    (set_if "path" (p_path params) ++ set_if "search" (p_search params)
       ++ set_if "file_type" (p_file_type params) ++ set_if "sort" (p_sort params)).

Definition getFiles (params : FileParams) : M Json :=
  res <- req ("/files?" +:+ getFiles_query params) no_opts ;; res_json res.

Definition getStats (path : option string) : M Json :=
  let path := match path with Some p => p | None => "/" end in
  res <- req ("/stats?" +:+ URLSearchParams_toString [("path", path)]) no_opts ;;
  res_json res.

Definition getVideoInfo (filePath : string) : M Json :=
  res <- req ("/files/video-info?" +:+ URLSearchParams_toString [("path", filePath)]) no_opts ;;
  res_json res.

(** *** Downloads *)

(** The request [bulkDownload] sends: it calls [fetch] itself, not [req]. *)
Definition bulkDownload_request (token : option string) (paths : list string) : Request :=
  {| url := API +:+ "/files/bulk-download";
     init := {| method := Some "POST";
                headers := <["Content-Type" := "application/json"]>
                             (<["Authorization" := "Bearer " +:+ show_str token]> ∅);
                body := Some (TextBody (JSON_stringify (JArr (JStr <$> paths)))) |} |}.

(** [res.blob()]: the body read to its end, or the rejection when the
    read fails. *)
Variable res_blob : Response -> Outcome string.

(** [bulkDownload]: after [await res.blob()] it resolves, and the browser
    has saved the blob under the name of the archive; [today] is
    [new Date().toISOString().slice(0, 10)]. *)
Definition bulkDownload (today : string) (paths : list string) : M Saved :=
  token <- getToken ;;
  res <- do_fetch (bulkDownload_request token paths) ;;
  if negb (ok res) then throw "Bulk download failed"
  else
    blob <- (fun w => (w, res_blob res)) ;;
    ret {| saved_as := "GhumaggerSnap-" +:+ today +:+ ".zip"; content := blob |}.

(** **** What a 401 does *)

(** The browser state after [clearAuth(); window.location.reload()]. *)
Definition signed_out (w : World) : World :=
  {| localStorage := delete "fs_user" (delete "fs_token" (localStorage w));
     reloads := S (reloads w) |}.

Lemma signed_out_no_token w : localStorage (signed_out w) !! "fs_token" = None.
Proof.
  unfold signed_out; simpl.
  rewrite lookup_delete_ne by discriminate.
  apply lookup_delete_eq.
Qed.

Lemma signed_out_no_user w : localStorage (signed_out w) !! "fs_user" = None.
Proof. unfold signed_out; simpl. apply lookup_delete_eq. Qed.

Lemma signed_out_other w key :
  key <> "fs_token" -> key <> "fs_user" ->
  localStorage (signed_out w) !! key = localStorage w !! key.
Proof.
  intros H1 H2. unfold signed_out; simpl.
  rewrite !lookup_delete_ne by congruence. reflexivity.
Qed.

Lemma req_401 w path opts res :
  fetch (req_request (localStorage w !! "fs_token") path opts) = Responded res ->
  status res = 401 ->
  req path opts w = (signed_out w, Throw "Unauthorized").
Proof.
  intros Hfetch Hstatus.
  unfold req, bind, getToken, getItem, do_fetch.
  rewrite Hfetch. unfold ret at 1. rewrite Hstatus. simpl.
  destruct w; reflexivity.
Qed.

(** Whatever the caller does with the response never runs. *)
Lemma req_401_then {B} w path opts res (k : Response -> M B) :
  fetch (req_request (localStorage w !! "fs_token") path opts) = Responded res ->
  status res = 401 ->
  (r <- req path opts ;; k r) w = (signed_out w, Throw "Unauthorized").
Proof.
  intros Hfetch Hstatus. unfold bind at 1.
  rewrite (req_401 _ _ _ _ Hfetch Hstatus). reflexivity.
Qed.

(** C9. Whenever the server answers a call made through [req] with status
    401, the wrapper removes [fs_token] and [fs_user] from [localStorage],
    reloads the page and rejects with "Unauthorized"; the rest of the
    caller (any continuation [k]) never runs.  [login] is such a caller:
    a 401 to the login request signs out whatever session was stored and
    stores nothing new. *)
Theorem unauthorized_clears_session (w : World) (path : string) (opts : Opts)
    (res : Response) :
  fetch (req_request (localStorage w !! "fs_token") path opts) = Responded res ->
  status res = 401 ->
  exists w',
    req path opts w = (w', Throw "Unauthorized")
    /\ localStorage w' !! "fs_token" = None
    /\ localStorage w' !! "fs_user" = None
    /\ reloads w' = S (reloads w)
    /\ (forall (k : Response -> M Json),
          (r <- req path opts ;; k r) w = (w', Throw "Unauthorized"))
    /\ (forall username password,
          path = "/auth/login" -> opts = login_opts username password ->
          login username password w = (w', Throw "Unauthorized")).
Proof.
  intros Hfetch Hstatus. exists (signed_out w).
  split; [exact (req_401 _ _ _ _ Hfetch Hstatus)|].
  split; [apply signed_out_no_token|].
  split; [apply signed_out_no_user|].
  split; [reflexivity|].
  split.
  - intros k. exact (req_401_then _ _ _ _ k Hfetch Hstatus).
  - intros username password -> ->. unfold login.
    exact (req_401_then _ _ _ _ _ Hfetch Hstatus).
Qed.

End Client.

Lemma unauthorized_clears_session_witness :
  exists w',
    req always_401 "/auth/login" (login_opts (fun _ => "{}") "guest" "wrong") stale_session
      = (w', Throw "Unauthorized")
    /\ localStorage w' !! "fs_token" = None
    /\ localStorage w' !! "fs_user" = None
    /\ reloads w' = S (reloads stale_session)
    /\ (forall (k : Response -> M Json),
          (r <- req always_401 "/auth/login" (login_opts (fun _ => "{}") "guest" "wrong") ;; k r)
            stale_session = (w', Throw "Unauthorized"))
    /\ (forall username password,
          "/auth/login" = "/auth/login" ->
          login_opts (fun _ => "{}") "guest" "wrong" = login_opts (fun _ => "{}") username password ->
          login always_401 (fun _ => "{}") username password stale_session
            = (w', Throw "Unauthorized")).
Proof.
  apply (unauthorized_clears_session always_401 (fun _ => "{}") stale_session
           "/auth/login" (login_opts (fun _ => "{}") "guest" "wrong")
           {| status := 401; json := Some (JObj [("detail", JStr "Bad credentials")]) |});
    reflexivity.
Defined.

End Api.

(** ** JavaScript Numbers

    A Number is an IEEE 754 binary64 value, here a primitive [float].
    Arithmetic is the kernel's; [Math.log] is left to the engine by
    ECMA-262 ("implementation-approximated"), and the one modelled is
    fdlibm's [__ieee754_log], which V8 (Chrome, Node) and SpiderMonkey
    run for it. *)
Module JSNumber.

Definition of_Z (z : Z) : float :=
  if z <? 0 then PrimFloat.opp (PrimFloat.of_uint63 (Uint63.of_Z (- z)))
  else PrimFloat.of_uint63 (Uint63.of_Z z).

(** The value of a finite float as a fraction [num / 2^den_log2]. *)
Definition exact (x : float) : option (Z * Z) :=
  match Prim2SF x with
  | S754_zero _ => Some (0, 0)
  | S754_finite s m e =>
      let m := if s then Z.neg m else Z.pos m in
      Some (if 0 <=? e then (m * 2 ^ e, 0) else (m, - e))
  | _ => None
  end.

(** The integer a float is, when it is one. *)
Definition to_integer (x : float) : option Z :=
  match exact x with
  | Some (n, d) => if n mod 2 ^ d =? 0 then Some (n / 2 ^ d) else None
  | None => None
  end.

(** ToBoolean of a Number: [0], [-0] and [NaN] are falsy. *)
Definition truthy (x : float) : bool :=
  match Prim2SF x with
  | S754_zero _ | S754_nan => false
  | _ => true
  end.

(** *** [Math.log]: fdlibm [e_log.c] *)
Definition ln2_hi : float := 0x1.62e42fee00000p-1%float.
Definition ln2_lo : float := 0x1.a39ef35793c76p-33%float.
Definition Lg1 : float := 0x1.5555555555593p-1%float.
Definition Lg2 : float := 0x1.999999997fa04p-2%float.
Definition Lg3 : float := 0x1.2492494229359p-2%float.
Definition Lg4 : float := 0x1.c71c51d8e78afp-3%float.
Definition Lg5 : float := 0x1.7466496cb03dep-3%float.
Definition Lg6 : float := 0x1.39a09d078c69fp-3%float.
Definition Lg7 : float := 0x1.2f112df3e5244p-3%float.
(** The literal [0.33333333333333333] of the C source. *)
Definition third : float := 0x1.5555555555555p-2%float.

(** [hx & 0x000fffff]: the twenty leading fraction bits of a significand
    [m] in [[1/2, 1)]. *)
Definition high20 (m : float) : Z :=
  Z.land (Z.shiftr (Uint63.to_Z (PrimFloat.normfr_mantissa m)) 32) 0xfffff.

Definition Math_log (x : float) : float :=
  match PrimFloat.classify x with
  | NaN | PInf => (x + x)%float
  | PZero | NZero => neg_infinity
  | NNormal | NSubn | NInf => nan
  | PNormal | PSubn =>
      (* x = m * 2^e with 1/2 <= m < 1; subnormals are scaled alike *)
      let (m, e) := FloatOps.Z.frexp x in
      let hx := high20 m in
      let i := Z.land (hx + 0x95f64) 0x100000 in
      let k := (e - 1) + Z.shiftr i 20 in
      (* normalize x or x/2 *)
      let x1 := if i =? 0 then FloatOps.Z.ldexp m 1 else m in
      let f := (x1 - 1)%float in
      let dk := of_Z k in
      if Z.land 0xfffff (2 + hx) <? 3 then
        (* |f| < 2**-20 *)
        if (f =? 0)%float then
          if k =? 0 then 0%float else (dk * ln2_hi + dk * ln2_lo)%float
        else
          let R := (f * f * (0.5 - third * f))%float in
          if k =? 0 then (f - R)%float
          else (dk * ln2_hi - ((R - dk * ln2_lo) - f))%float
      else
        let s := (f / (2 + f))%float in
        let z := (s * s)%float in
        let i := hx - 0x6147a in
        let w := (z * z)%float in
        let j := 0x6b851 - hx in
        let t1 := (w * (Lg2 + w * (Lg4 + w * Lg6)))%float in
        let t2 := (z * (Lg1 + w * (Lg3 + w * (Lg5 + w * Lg7))))%float in
        let R := (t2 + t1)%float in
        if 0 <? Z.lor i j then
          let hfsq := (0.5 * f * f)%float in
          if k =? 0 then (f - (hfsq - s * (hfsq + R)))%float
          else (dk * ln2_hi - ((hfsq - (s * (hfsq + R) + dk * ln2_lo)) - f))%float
        else
          if k =? 0 then (f - s * (f - R))%float
          else (dk * ln2_hi - ((s * (f - R) - dk * ln2_lo) - f))%float
  end.

(** [Math.floor]. *)
Definition Math_floor (x : float) : float :=
  match exact x with
  | Some (n, d) => if d =? 0 then x else of_Z (n / 2 ^ d)
  | None => x
  end.

(** [Math.pow(1024, i)] for the exponents [Math.floor] can return: an
    exact power of two for an integer (saturating to [Infinity] and [0]),
    [NaN] for [NaN]. *)
Definition Math_pow_1024 (i : float) : float :=
  match Prim2SF i with
  | S754_infinity false => infinity
  | S754_infinity true => 0%float
  | _ =>
      match to_integer i with
      | Some z => FloatOps.Z.ldexp 1%float (10 * z)
      | None => nan
      end
  end.

(** [x.toFixed(1)] for [|x| < 1e21]: the integer [n] with [n / 10]
    nearest to [x], the larger one on a tie, written with one decimal. *)
Definition toFixed1 (x : float) : string :=
  match Prim2SF x with
  | S754_nan => "NaN"
  | S754_infinity false => "Infinity"
  | S754_infinity true => "-Infinity"
  | S754_zero _ => "0.0"
  | S754_finite s m e =>
      let n := if 0 <=? e then Z.pos m * 2 ^ e * 10
               else (20 * Z.pos m + 2 ^ (- e)) / 2 ^ (1 - e) in
      (if s then "-" else "") +:+ JS.dec (n / 10) +:+ "." +:+ JS.dec (n mod 10)
  end.

(** [`${parseFloat(t)}`] for a text [t] that [toFixed(1)] produced with at
    most fifteen digits: the Number read back prints without a trailing
    [.0], and negative zero prints as [0]. *)
Fixpoint drop_dot0 (t : string) : string :=
  match t with
  | EmptyString => EmptyString
  | String c rest => if String.eqb rest ".0" then String c EmptyString
                     else String c (drop_dot0 rest)
  end.

Definition show_parseFloat (t : string) : string :=
  let u := drop_dot0 t in
  if String.eqb u "-0" then "0" else u.

(** [s[i]] for an array of strings and a Number index, in a template
    literal. *)
Definition show_at (s : list string) (i : float) : string :=
  match to_integer i with
  | Some z => if 0 <=? z then default "undefined" (s !! Z.to_nat z) else "undefined"
  | None => "undefined"
  end.

End JSNumber.

(** ** File cards: [frontend/src/components/FileCard.jsx] *)
Module FileCard.
Import JSNumber.

(** *** Utilities *)

(** What [fmtSize] is called with: a size from a listing or from the
    statistics, or nothing. *)
Inductive Size :=
| Undefined
| Null
| Number (b : float).

Definition fmtSize (b : Size) : string :=
  match b with
  | Undefined | Null => "0 B"
  | Number b =>
      if negb (truthy b) then "0 B"
      else
        let k := 1024%float in
        let s := ["B"; "KB"; "MB"; "GB"; "TB"] in
        let i := Math_floor (Math_log b / Math_log k) in
        show_parseFloat (toFixed1 (b / Math_pow_1024 i)) +:+ " " +:+ show_at s i
  end.

(** A byte count as the Number the client receives. *)
Definition bytes (n : Z) : Size := Number (of_Z n).

(** *** Entries of a listing, as the components read them *)
Record FileEntry := {
  name : string;
  path : string;
  size : Z;
  modified_at : string;
  file_type : string;
}.

Record FolderEntry := {
  folder_name : string;
  folder_path : string;
  item_count : Z;
  folder_modified_at : string;
}.

Inductive Icon := IconImage | IconFilm | IconFile | IconPlay | IconFolder.

Definition typeIcon : gmap string Icon :=
  <["other" := IconFile]> (<["video" := IconFilm]> (<["image" := IconImage]> ∅)).

(** [file.name.split('.').pop()]. *)
Definition extension (file : FileEntry) : string :=
  List.last (JS.split_on "." (name file)) "".

(** *** File Card (Grid) and File Row (List)

    Both components keep the same two pieces of state. *)
Record CardState := {
  thumbErr : bool;
  menuOpen : bool;
}.

Definition fresh_card : CardState := {| thumbErr := false; menuOpen := false |}.

(** The [onError] handler of the thumbnail image: [setThumbErr(true)]. *)
Definition on_thumb_error (st : CardState) : CardState :=
  {| thumbErr := true; menuOpen := menuOpen st |}.

(** The thumbnail area of a card. *)
Inductive ThumbArea :=
| ThumbImg (src alt : string)
| ThumbPlay (ext : string)
| ThumbIcon (icon : Icon) (ext : string).

Record CardView := {
  card_selected : bool;
  card_thumb : ThumbArea;
  card_name : string;
  card_size : string;
  card_menu : bool;
}.

Definition FileCard (token : option string) (file : FileEntry) (selected : bool)
    (st : CardState) : CardView :=
  let isImg := String.eqb (file_type file) "image" in
  let isVid := String.eqb (file_type file) "video" in
  let showThumb := isImg && negb (thumbErr st) in
  {| card_selected := selected;
     card_thumb :=
       if showThumb then ThumbImg (Api.thumbnailUrl token (path file)) (name file)
       else if isVid then ThumbPlay (extension file)
       else ThumbIcon (default IconFile (typeIcon !! file_type file)) (extension file);
     card_name := name file;
     card_size := fmtSize (bytes (size file));
     card_menu := menuOpen st |}.

(** The icon cell of a row. *)
Inductive RowThumb :=
| RowImg (src : string)
| RowIcon (icon : Icon).

Record RowView := {
  row_selected : bool;
  row_thumb : RowThumb;
  row_name : string;
  row_size : string;
  row_type : string;
  row_menu : bool;
}.

Definition FileRow (token : option string) (file : FileEntry) (selected : bool)
    (st : CardState) : RowView :=
  let isImg := String.eqb (file_type file) "image" in
  {| row_selected := selected;
     row_thumb :=
       if isImg && negb (thumbErr st) then RowImg (Api.thumbnailUrl token (path file))
       else if String.eqb (file_type file) "video" then RowIcon IconPlay
       else RowIcon IconFile;
     row_name := name file;
     row_size := fmtSize (bytes (size file));
     row_type := file_type file;
     row_menu := menuOpen st |}.

(** *** Folder Card (Grid) and Folder Row (List) *)
Record FolderView := {
  shown_name : string;
  shown_count : string;
}.

Definition FolderCard (folder : FolderEntry) : FolderView :=
  {| shown_name := folder_name folder;
     shown_count := JS.dec (item_count folder) +:+ " item"
                      +:+ (if item_count folder =? 1 then "" else "s") |}.

Definition FolderRow (folder : FolderEntry) : FolderView :=
  {| shown_name := folder_name folder;
     shown_count := JS.dec (item_count folder) +:+ " items" |}.

(** The claim about [fmtSize], in exact arithmetic: [b] over
    [1024^floor(log_1024 b)], to the nearest tenth, without a trailing
    zero, then the unit at that index. *)
Definition fmtSize_claimed (b : Z) : string :=
  let i := Z.log2 b / 10 in
  let n := (20 * b + 1024 ^ i) / (2 * 1024 ^ i) in
  (if n mod 10 =? 0 then JS.dec (n / 10)
   else JS.dec (n / 10) +:+ "." +:+ JS.dec (n mod 10))
    +:+ " " +:+ default "undefined" (["B"; "KB"; "MB"; "GB"; "TB"] !! Z.to_nat i).

(** X3. Every falsy argument is shown as "0 B". *)
Lemma fmtSize_falsy :
  fmtSize Undefined = "0 B" /\ fmtSize Null = "0 B"
  /\ fmtSize (Number 0%float) = "0 B" /\ fmtSize (Number (-0)%float) = "0 B"
  /\ fmtSize (Number nan) = "0 B".
Proof. repeat split; vm_compute; reflexivity. Qed.

Example fmtSize_samples :
  map (fun b => fmtSize (bytes b))
      [1; 1023; 1024; 1536; 1048575; 1048576; 5668709120; 2 ^ 40; 2 ^ 50 - 4]
  = ["1 B"; "1023 B"; "1 KB"; "1.5 KB"; "1024 KB"; "1 MB"; "5.3 GB"; "1 TB"; "1024 TB"].
Proof. vm_compute. reflexivity. Qed.

(** Up to 2100 bytes, and one byte either side of each unit boundary below
    the last, the code and the claim agree. *)
Lemma fmtSize_agrees_small :
  forallb (fun b => String.eqb (fmtSize (bytes b)) (fmtSize_claimed b))
          (map Z.of_nat (seq 1 2100)
             ++ [2 ^ 20 - 1; 2 ^ 20; 2 ^ 20 + 1; 2 ^ 30 - 1; 2 ^ 30; 2 ^ 30 + 1;
                 2 ^ 40 - 1; 2 ^ 40; 2 ^ 40 + 1; 2 ^ 50 - 4])
  = true.
Proof. vm_compute. reflexivity. Qed.

(** C10, at its upper end.  For the three byte counts just below
    [1024^5] the quotient of the two logarithms rounds to [5.0], so the
    index is 5, the division is by [1024^5] and the unit is read past the
    end of the table: the text is "1 undefined", where the claim gives
    "1024 TB". *)
Theorem fmtSize_unit_past_table :
  map (fun b => fmtSize (bytes b)) [2 ^ 50 - 3; 2 ^ 50 - 2; 2 ^ 50 - 1]
    = ["1 undefined"; "1 undefined"; "1 undefined"]
  /\ map fmtSize_claimed [2 ^ 50 - 3; 2 ^ 50 - 2; 2 ^ 50 - 1]
    = ["1024 TB"; "1024 TB"; "1024 TB"]
  /\ Prim2SF (Math_floor (Math_log (of_Z (2 ^ 50 - 1)) / Math_log 1024))
    = Prim2SF 5%float.
Proof. repeat split; vm_compute; reflexivity. Qed.

End FileCard.

(** ** The preview overlay: [frontend/src/components/FilePreview.jsx] *)
Module FilePreview.
Import JS.

(** *** VideoPlayer

    State machine: 'loading' → 'playing' | 'transcoding' | 'error'. *)
Inductive Status := loading | playing | transcoding | error.

(** One mounted [VideoPlayer]: the [file] prop, the four [useState] cells,
    the [triedCompat] ref, and the number of [handleError] calls that are
    suspended at [await api.getVideoInfo(...)]. *)
Record Player := {
  file_path : string;
  status : Status;
  bufferPct : Z;
  useCompat : bool;
  errorMsg : string;
  triedCompat : bool;
  probing : nat;
}.

(** What the component asks of the network: a [<video>] element mounted
    with a source (it is keyed by [src], so each new source is a new
    element that starts loading), and a call of [api.getVideoInfo]. *)
Inductive Request :=
| LoadVideo (src : string)
| Probe (filePath : string).

Inductive Event :=
| MediaError                              (* onError of the video element *)
| ProbeSettled (info : Api.Outcome Json)  (* the awaited probe settles *)
| Progress (pct : Z)
| CanPlay
| Playing
| Waiting
| LoadedData
| FileChanged (filePath : string).        (* the parent passes another file *)

(** A probe's answer: a codec the browser cannot play, and no ffmpeg. *)
Definition hevc_without_ffmpeg : Json :=
  JObj [("codec", JStr "hevc"); ("needs_transcode", JBool true);
        ("ffmpeg_available", JBool false)].

(** The answer of the same server, which has no ffmpeg, for a video the
    browser can decode. *)
Definition h264_without_ffmpeg : Json :=
  JObj [("codec", JStr "h264"); ("needs_transcode", JBool false);
        ("ffmpeg_available", JBool false)].

Section Player.

(** [getToken()], unchanged while the player is shown. *)
Variable token : option string.

Definition src (p : Player) : string :=
  if useCompat p then Api.previewCompatUrl token (file_path p)
  else Api.previewUrl token (file_path p).

Definition set_status (s : Status) (p : Player) : Player :=
  {| file_path := file_path p; status := s; bufferPct := bufferPct p;
     useCompat := useCompat p; errorMsg := errorMsg p;
     triedCompat := triedCompat p; probing := probing p |}.

(** [setStatus('error'); setErrorMsg(msg)]. *)
Definition fail_with (msg : string) (p : Player) : Player :=
  {| file_path := file_path p; status := error; bufferPct := bufferPct p;
     useCompat := useCompat p; errorMsg := msg;
     triedCompat := triedCompat p; probing := probing p |}.

(** [setStatus('transcoding'); setBufferPct(0); setUseCompat(true)]. *)
Definition go_compat (p : Player) : Player :=
  {| file_path := file_path p; status := transcoding; bufferPct := 0;
     useCompat := true; errorMsg := errorMsg p;
     triedCompat := triedCompat p; probing := probing p |}.

(** The first render of the player for a file. *)
Definition mounted (filePath : string) : Player :=
  {| file_path := filePath; status := loading; bufferPct := 0;
     useCompat := false; errorMsg := ""; triedCompat := false; probing := 0 |}.

Definition mount (filePath : string) : Player * list Request :=
  (mounted filePath, [LoadVideo (src (mounted filePath))]).

(** The requests a re-render adds: a new video element when [src]
    changed. *)
Definition rerender (before after : Player) : list Request :=
  if String.eqb (src before) (src after) then [] else [LoadVideo (src after)].

(** [handleError], up to its [await]. *)
Definition handleError_start (p : Player) : Player * list Request :=
  if triedCompat p then
    (fail_with "Video could not be played. Try downloading it instead." p, [])
  else
    ({| file_path := file_path p; status := status p; bufferPct := bufferPct p;
        useCompat := useCompat p; errorMsg := errorMsg p;
        triedCompat := true; probing := S (probing p) |},
     [Probe (file_path p)]).

Definition unsupported_codec (info : Json) : string :=
  "Codec " +:+ dquote
    +:+ match get "codec" info with Some c => toString c | None => "undefined" end
    +:+ dquote +:+ " not supported by browser. Install ffmpeg to enable transcoding.".

(** [handleError], from the moment the probe settles. *)
Definition handleError_resume (info : Api.Outcome Json) (p : Player) : Player :=
  match info with
  | Api.Return info =>
      if truthy_opt (get "needs_transcode" info) && truthy_opt (get "ffmpeg_available" info)
      then go_compat p
      else if truthy_opt (get "needs_transcode" info)
                && negb (truthy_opt (get "ffmpeg_available" info))
      then fail_with (unsupported_codec info) p
      else go_compat p
  | Api.Throw _ =>
      (* probe failed, try compat anyway *)
      go_compat p
  end.

(** The effect on [file.path]: reset when file changes. *)
Definition reset (p : Player) : Player :=
  {| file_path := file_path p; status := loading; bufferPct := 0;
     useCompat := false; errorMsg := ""; triedCompat := false;
     probing := probing p |}.

Definition with_file (filePath : string) (p : Player) : Player :=
  {| file_path := filePath; status := status p; bufferPct := bufferPct p;
     useCompat := useCompat p; errorMsg := errorMsg p;
     triedCompat := triedCompat p; probing := probing p |}.

Definition step (p : Player) (ev : Event) : Player * list Request :=
  match ev with
  | MediaError => handleError_start p
  | ProbeSettled info =>
      match probing p with
      | O => (p, [])
      | S n =>
          let p' := handleError_resume info
                      {| file_path := file_path p; status := status p;
                         bufferPct := bufferPct p; useCompat := useCompat p;
                         errorMsg := errorMsg p; triedCompat := triedCompat p;
                         probing := n |} in
          (p', rerender p p')
      end
  | Progress pct =>
      ({| file_path := file_path p; status := status p; bufferPct := pct;
          useCompat := useCompat p; errorMsg := errorMsg p;
          triedCompat := triedCompat p; probing := probing p |}, [])
  | CanPlay | Playing | LoadedData => (set_status playing p, [])
  | Waiting =>
      (match status p with transcoding => p | _ => set_status loading p end, [])
  | FileChanged filePath =>
      if String.eqb filePath (file_path p) then (p, [])
      else
        (* the render with the new prop runs on the state left by the
           previous file; the effect then resets it and renders again *)
        let stale := with_file filePath p in
        let fresh := reset stale in
        (fresh, LoadVideo (src stale) :: rerender stale fresh)
  end.

(** A session of the player: the events in order, and every request
    made, in order. *)
Fixpoint run (p : Player) (evs : list Event) : Player * list Request :=
  match evs with
  | [] => (p, [])
  | ev :: rest =>
      let (p1, r1) := step p ev in
      let (p2, r2) := run p1 rest in
      (p2, (r1 ++ r2)%list)
  end.

(** The events that are neither an error, nor a probe's answer, nor a
    change of file. *)
Definition quiet (ev : Event) : bool :=
  match ev with
  | Progress _ | CanPlay | Playing | Waiting | LoadedData => true
  | MediaError | ProbeSettled _ | FileChanged _ => false
  end.

(** The state of a player that has had no error on its file. *)
Definition untouched (p : Player) : Prop :=
  useCompat p = false /\ triedCompat p = false /\ probing p = 0%nat.

(** **** Native playback comes first, on one file *)

Lemma mount_is_native filePath :
  mount filePath = (mounted filePath, [LoadVideo (Api.previewUrl token filePath)])
  /\ useCompat (mounted filePath) = false
  /\ triedCompat (mounted filePath) = false.
Proof. repeat split. Qed.

(** Buffering and playback events leave the source alone and ask nothing
    of the network. *)
Lemma quiet_step p ev :
  quiet ev = true ->
  snd (step p ev) = []
  /\ useCompat (fst (step p ev)) = useCompat p
  /\ triedCompat (fst (step p ev)) = triedCompat p
  /\ probing (fst (step p ev)) = probing p
  /\ file_path (fst (step p ev)) = file_path p.
Proof.
  destruct ev; simpl; try discriminate; intros _; repeat split;
    destruct (status p); reflexivity.
Qed.

(** Only [handleError] starts a probe, and only once per file. *)
Lemma error_step p :
  step p MediaError =
    if triedCompat p
    then (fail_with "Video could not be played. Try downloading it instead." p, [])
    else (fst (handleError_start p), [Probe (file_path p)]).
Proof. simpl. unfold handleError_start. destruct (triedCompat p); reflexivity. Qed.

(** X2. Once compat was tried, a further error is final: the state is
    'error', the source stays what it was, nothing is requested. *)
Lemma second_error_is_final p :
  triedCompat p = true ->
  snd (step p MediaError) = []
  /\ status (fst (step p MediaError)) = error
  /\ src (fst (step p MediaError)) = src p
  /\ useCompat (fst (step p MediaError)) = useCompat p.
Proof.
  intros H. rewrite error_step, H. repeat split.
Qed.

Lemma untouched_step p ev :
  untouched p ->
  match ev with MediaError | FileChanged _ => False | _ => True end ->
  snd (step p ev) = [] /\ untouched (fst (step p ev))
  /\ file_path (fst (step p ev)) = file_path p.
Proof.
  intros (Hc & Ht & Hp) Hev. destruct ev; simpl in *; try contradiction.
  - rewrite Hp. simpl. repeat split; assumption.
  - repeat split; assumption.
  - repeat split; assumption.
  - repeat split; assumption.
  - destruct (status p); repeat split; assumption.
  - repeat split; assumption.
Qed.

(** X1. Until the video element reports an error, a player shown for one
    file requests neither the probe nor the compat stream, whatever else
    happens to it, and its source stays the plain preview URL. *)
Lemma native_until_error p evs :
  untouched p ->
  Forall (fun ev => match ev with MediaError | FileChanged _ => False | _ => True end) evs ->
  snd (run p evs) = [] /\ src (fst (run p evs)) = Api.previewUrl token (file_path p).
Proof.
  intros Hp Hevs. revert p Hp.
  induction Hevs as [|ev evs Hev _ IH]; intros p Hp.
  - simpl. split; [reflexivity|]. unfold src. destruct Hp as (-> & _). reflexivity.
  - simpl. destruct (untouched_step p ev Hp Hev) as (Hr & Hu & Hf).
    destruct (step p ev) as [p1 r1] eqn:E1. simpl in *.
    destruct (IH p1 Hu) as (Hr2 & Hs2).
    destruct (run p1 evs) as [p2 r2]. simpl in *.
    subst. split; [reflexivity|]. rewrite Hs2, Hf. reflexivity.
Qed.

(** **** After a change of file *)

(** The render that follows a change of file still runs on the previous
    file's state: if that file was playing through the compat stream, the
    compat stream of the new file is loaded, although the new file has had
    no playback attempt, before the reset effect brings the plain source
    back. *)
Lemma stale_compat_on_file_change p filePath :
  useCompat p = true ->
  String.eqb filePath (file_path p) = false ->
  exists rest,
    step p (FileChanged filePath)
    = (reset (with_file filePath p),
       LoadVideo (Api.previewCompatUrl token filePath) :: rest).
Proof.
  intros Hc Hne. simpl. rewrite Hne. unfold src at 1. simpl. rewrite Hc.
  eexists. reflexivity.
Qed.

(** **** No transcoder *)

Lemma rerender_same p q : src p = src q -> rerender p q = [].
Proof. intros H. unfold rerender. rewrite H, String.eqb_refl. reflexivity. Qed.

(** One resumption of the handler, on whatever the player shows then.
    When the probe answers [needs_transcode] with no ffmpeg, the handler
    ends in 'error' with a message that names the codec; it does not
    touch [useCompat], so the source is not switched and no request is
    made.  For a player that was showing the plain source, the source is
    still the plain preview URL afterwards, and on a player that keeps
    its file a further error changes nothing but the message. *)
Theorem no_transcoder_names_codec (p : Player) (n : nat) (info : Json) (c : string) :
  probing p = S n ->
  truthy_opt (get "needs_transcode" info) = true ->
  truthy_opt (get "ffmpeg_available" info) = false ->
  get "codec" info = Some (JStr c) ->
  let p' := fst (step p (ProbeSettled (Api.Return info))) in
  snd (step p (ProbeSettled (Api.Return info))) = []
  /\ status p' = error
  /\ errorMsg p' = "Codec " +:+ dquote +:+ c +:+ dquote
                     +:+ " not supported by browser. Install ffmpeg to enable transcoding."
  /\ useCompat p' = useCompat p
  /\ src p' = src p
  /\ (useCompat p = false -> src p' = Api.previewUrl token (file_path p))
  /\ (forall filePath,
        run (mounted filePath) [MediaError; ProbeSettled (Api.Return info); MediaError]
        = (fail_with "Video could not be played. Try downloading it instead."
             (fail_with (unsupported_codec info)
                {| file_path := filePath; status := loading; bufferPct := 0;
                   useCompat := false; errorMsg := ""; triedCompat := true;
                   probing := 0 |}),
           [Probe filePath])).
Proof.
  intros Hp Hn Hf Hc. unfold step. rewrite Hp. unfold handleError_resume.
  rewrite Hn, Hf. cbn [andb negb fst snd].
  split.
  { apply rerender_same. reflexivity. }
  split; [reflexivity|].
  split; [unfold unsupported_codec; rewrite Hc; reflexivity|].
  split; [reflexivity|].
  split; [reflexivity|].
  split.
  { intros H0. unfold src. simpl. rewrite H0. reflexivity. }
  intros filePath. unfold run, step.
  cbn [handleError_start mounted triedCompat probing file_path status bufferPct
       useCompat errorMsg].
  unfold handleError_resume. rewrite Hn, Hf. cbn [andb negb].
  rewrite rerender_same by reflexivity. reflexivity.
Qed.

End Player.

Lemma no_transcoder_names_codec_witness :
  let p := fst (step (Some "jwt") (mounted "/Goa2024/clip.mov") MediaError) in
  let p' := fst (step (Some "jwt") p (ProbeSettled (Api.Return hevc_without_ffmpeg))) in
  snd (step (Some "jwt") p (ProbeSettled (Api.Return hevc_without_ffmpeg))) = []
  /\ status p' = error
  /\ errorMsg p' = "Codec " +:+ dquote +:+ "hevc" +:+ dquote
                     +:+ " not supported by browser. Install ffmpeg to enable transcoding."
  /\ useCompat p' = useCompat p
  /\ src (Some "jwt") p' = src (Some "jwt") p
  /\ (useCompat p = false -> src (Some "jwt") p' = Api.previewUrl (Some "jwt") (file_path p))
  /\ (forall filePath,
        run (Some "jwt") (mounted filePath)
            [MediaError; ProbeSettled (Api.Return hevc_without_ffmpeg); MediaError]
        = (fail_with "Video could not be played. Try downloading it instead."
             (fail_with (unsupported_codec hevc_without_ffmpeg)
                {| file_path := filePath; status := loading; bufferPct := 0;
                   useCompat := false; errorMsg := ""; triedCompat := true;
                   probing := 0 |}),
           [Probe filePath])).
Proof.
  exact (no_transcoder_names_codec (Some "jwt")
           (fst (step (Some "jwt") (mounted "/Goa2024/clip.mov") MediaError))
           0%nat hevc_without_ffmpeg "hevc" eq_refl eq_refl eq_refl eq_refl).
Defined.

(** C4, where it breaks.  A video that needs the compat stream is
    followed by another video in the same overlay (the arrow keys do
    this; the player is not remounted, which is why it has a reset
    effect).  The second file has had no playback attempt, and yet its
    compat stream is the first thing loaded for it: the third request of
    the first session below.  The plain source follows only once the reset
    effect has run.  In the second session the file changes while the
    probe of the first is still awaited: the answer then switches the
    second file to its compat stream, again without any error of its own. *)
Theorem compat_loaded_before_native_attempt :
  run (Some "jwt") (mounted "a.mov")
      [MediaError; ProbeSettled (Api.Throw "Request failed"); FileChanged "b.mp4"]
  = (mounted "b.mp4",
     [Probe "a.mov";
      LoadVideo (Api.previewCompatUrl (Some "jwt") "a.mov");
      LoadVideo (Api.previewCompatUrl (Some "jwt") "b.mp4");
      LoadVideo (Api.previewUrl (Some "jwt") "b.mp4")])
  /\ run (Some "jwt") (mounted "a.mov")
      [MediaError; FileChanged "b.mp4"; ProbeSettled (Api.Throw "Request failed")]
  = (go_compat (mounted "b.mp4"),
     [Probe "a.mov";
      LoadVideo (Api.previewUrl (Some "jwt") "b.mp4");
      LoadVideo (Api.previewCompatUrl (Some "jwt") "b.mp4")])
  /\ ~ In MediaError [FileChanged "b.mp4"; ProbeSettled (Api.Throw "Request failed")].
Proof.
  split; [vm_compute; reflexivity|].
  split; [vm_compute; reflexivity|].
  intros [H|[H|[]]]; discriminate H.
Qed.

(** C5, where it breaks.  The server has no ffmpeg.  [a.mp4] fails and
    its probe is still awaited when the parent passes [b.mov] to the same
    mounted player.  [b.mov] fails too and is probed; its probe answers
    [needs_transcode] with no ffmpeg, and the player shows the message
    that names the codec (the first session).  Then the answer for
    [a.mp4] arrives: the handler suspended for [a.mp4] resumes on the
    player that now shows [b.mov] and switches it to the compat stream.
    So for a video whose own probe reported [needs_transcode] with no
    transcoder, the compat stream is requested and the player leaves the
    'error' state (the second session). *)
Theorem compat_requested_after_no_transcoder_answer :
  truthy_opt (get "needs_transcode" hevc_without_ffmpeg) = true
  /\ truthy_opt (get "ffmpeg_available" hevc_without_ffmpeg) = false
  /\ run (Some "jwt") (mounted "a.mp4")
       [MediaError; FileChanged "b.mov"; MediaError;
        ProbeSettled (Api.Return hevc_without_ffmpeg)]
     = (fail_with (unsupported_codec hevc_without_ffmpeg)
          {| file_path := "b.mov"; status := loading; bufferPct := 0; useCompat := false;
             errorMsg := ""; triedCompat := true; probing := 1 |},
        [Probe "a.mp4";
         LoadVideo (Api.previewUrl (Some "jwt") "b.mov");
         Probe "b.mov"])
  /\ run (Some "jwt") (mounted "a.mp4")
       [MediaError; FileChanged "b.mov"; MediaError;
        ProbeSettled (Api.Return hevc_without_ffmpeg);
        ProbeSettled (Api.Return h264_without_ffmpeg)]
     = ({| file_path := "b.mov"; status := transcoding; bufferPct := 0; useCompat := true;
           errorMsg := unsupported_codec hevc_without_ffmpeg; triedCompat := true;
           probing := 0 |},
        [Probe "a.mp4";
         LoadVideo (Api.previewUrl (Some "jwt") "b.mov");
         Probe "b.mov";
         LoadVideo (Api.previewCompatUrl (Some "jwt") "b.mov")])
  /\ src (Some "jwt")
       (fst (run (Some "jwt") (mounted "a.mp4")
               [MediaError; FileChanged "b.mov"; MediaError;
                ProbeSettled (Api.Return hevc_without_ffmpeg);
                ProbeSettled (Api.Return h264_without_ffmpeg)]))
     = Api.previewCompatUrl (Some "jwt") "b.mov".
Proof.
  split; [reflexivity|]. split; [reflexivity|].
  split; [vm_compute; reflexivity|].
  split; vm_compute; reflexivity.
Qed.

(** A player while it shows one file: nothing before its first error. *)
Lemma native_until_error_witness :
  snd (run (Some "jwt") (mounted "clip.mp4") [Progress 10; CanPlay; Waiting; Playing]) = []
  /\ src (Some "jwt") (fst (run (Some "jwt") (mounted "clip.mp4")
                              [Progress 10; CanPlay; Waiting; Playing]))
     = Api.previewUrl (Some "jwt") (file_path (mounted "clip.mp4")).
Proof.
  apply (native_until_error (Some "jwt") (mounted "clip.mp4")
           [Progress 10; CanPlay; Waiting; Playing]).
  - repeat split.
  - repeat constructor.
Defined.

Lemma second_error_is_final_witness :
  let p := go_compat (fst (handleError_start (mounted "clip.mov"))) in
  snd (step (Some "jwt") p MediaError) = []
  /\ status (fst (step (Some "jwt") p MediaError)) = error
  /\ src (Some "jwt") (fst (step (Some "jwt") p MediaError)) = src (Some "jwt") p
  /\ useCompat (fst (step (Some "jwt") p MediaError)) = useCompat p.
Proof.
  exact (second_error_is_final (Some "jwt")
           (go_compat (fst (handleError_start (mounted "clip.mov")))) eq_refl).
Defined.

End FilePreview.

(** ** The file browser: [frontend/src/components/Dashboard.jsx] *)
Module Dashboard.
Import JS FileCard.

Inductive View := grid | list_view.

(** The hooks of [Dashboard] that the listing depends on, and the state of
    the file cards it has mounted, by React key ([f.path]); a key that is
    absent is a card in its initial state. *)
Record State := {
  currentPath : string;
  folders : list FolderEntry;
  files : list FileEntry;
  loading : bool;
  search : string;
  fileType : string;
  sort : string;
  view : View;
  selected : gset string;
  cards : gmap string CardState;
}.

Definition initial : State :=
  {| currentPath := "/"; folders := []; files := []; loading := true;
     search := ""; fileType := "all"; sort := "name"; view := grid;
     selected := ∅; cards := ∅ |}.

(** *** Reading the listing out of the response

    The components read [f.name], [f.path], [f.size] and so on off the
    entries of the response; the embedding reads them once, here.  The
    response is taken to follow the listing contract: entries are objects
    with these fields (a field that is absent reads as empty). *)
Definition str (o : option Json) : string :=
  match o with Some (JStr s) => s | _ => "" end.
Definition num (o : option Json) : Z :=
  match o with Some (JNum z) => z | _ => 0 end.

Definition decode_file (j : Json) : FileEntry :=
  {| name := str (get "name" j); path := str (get "path" j);
     size := num (get "size" j); modified_at := str (get "modified_at" j);
     file_type := str (get "file_type" j) |}.

Definition decode_folder (j : Json) : FolderEntry :=
  {| folder_name := str (get "name" j); folder_path := str (get "path" j);
     item_count := num (get "item_count" j);
     folder_modified_at := str (get "modified_at" j) |}.

(** [data.folders || []] and [data.files || []], for a response whose
    collections are arrays or missing (the listing contract). *)
Definition or_empty (o : option Json) : list Json :=
  match o with Some (JArr items) => items | _ => [] end.

Definition listed_folders (data : Json) : list FolderEntry :=
  decode_folder <$> or_empty (get "folders" data).
Definition listed_files (data : Json) : list FileEntry :=
  decode_file <$> or_empty (get "files" data).

Section Browser.

Variable fetch : Api.Request -> Api.Fetched.

(** *** Load files *)
Definition loadFiles (d : State) : Api.M State :=
  fun w =>
    let params :=
      {| Api.p_path := Some (currentPath d); Api.p_search := Some (search d);
         Api.p_file_type := Some (fileType d); Api.p_sort := Some (sort d) |} in
    let failed :=
      (* toast.error('Failed to load files') *)
      {| currentPath := currentPath d; folders := folders d; files := files d;
         loading := false; search := search d; fileType := fileType d;
         sort := sort d; view := view d; selected := selected d; cards := ∅ |} in
    match Api.getFiles fetch params w with
    | (w', Api.Return JNull) => (w', Api.Return failed)
    | (w', Api.Return data) =>
        (w', Api.Return
               {| currentPath := currentPath d;
                  folders := listed_folders data; files := listed_files data;
                  loading := false; search := search d; fileType := fileType d;
                  sort := sort d; view := view d; selected := selected d;
                  cards := ∅ |})
    | (w', Api.Throw _) => (w', Api.Return failed)
    end.

End Browser.

(** *** Render *)
Inductive Item :=
| FolderCell (v : FolderView)
| FileCell (v : CardView)
| FolderLine (v : FolderView)
| FileLine (v : RowView).

Record Block := {
  heading : option string;
  cells : list Item;
}.

Inductive Main :=
| Spinner
| EmptyState (title hint : string)
| GridView (blocks : list Block)
| ListView (rows : list Item).

(** A folder of two photographs, for the examples. *)
Definition beach : FileEntry :=
  {| name := "beach.jpg"; path := "/Goa2024/beach.jpg"; size := 2048;
     modified_at := "2024-01-05T10:00:00"; file_type := "image" |}.

Definition sunset : FileEntry :=
  {| name := "sunset.jpg"; path := "/Goa2024/sunset.jpg"; size := 4096;
     modified_at := "2024-01-05T18:30:00"; file_type := "image" |}.

Definition goa : State :=
  {| currentPath := "/Goa2024"; folders := []; files := [beach; sunset];
     loading := false; search := ""; fileType := "all"; sort := "name";
     view := grid; selected := ∅; cards := ∅ |}.

(** What the components read off an entry of the response: an object
    that carries these fields describes this entry, whatever else it
    carries. *)
Definition describes_folder (j : Json) (e : FolderEntry) : Prop :=
  get "name" j = Some (JStr (folder_name e))
  /\ get "path" j = Some (JStr (folder_path e))
  /\ get "item_count" j = Some (JNum (item_count e))
  /\ get "modified_at" j = Some (JStr (folder_modified_at e)).

Definition describes_file (j : Json) (e : FileEntry) : Prop :=
  get "name" j = Some (JStr (name e))
  /\ get "path" j = Some (JStr (path e))
  /\ get "size" j = Some (JNum (size e))
  /\ get "modified_at" j = Some (JStr (modified_at e))
  /\ get "file_type" j = Some (JStr (file_type e)).

(** A server that knows one folder, and a browser about to show it. *)
Definition day1 : FolderEntry :=
  {| folder_name := "day1"; folder_path := "/Goa2024/day1"; item_count := 12;
     folder_modified_at := "2024-01-05T09:00:00" |}.

Definition goa_listing : Json :=
  JObj [("path", JStr "/Goa2024");
        ("folders",
         JArr [JObj [("name", JStr "day1"); ("path", JStr "/Goa2024/day1");
                     ("type", JStr "folder"); ("item_count", JNum 12);
                     ("modified_at", JStr "2024-01-05T09:00:00")]]);
        ("files",
         JArr [JObj [("name", JStr "beach.jpg"); ("path", JStr "/Goa2024/beach.jpg");
                     ("size", JNum 2048); ("modified_at", JStr "2024-01-05T10:00:00");
                     ("file_type", JStr "image")];
               JObj [("name", JStr "sunset.jpg"); ("path", JStr "/Goa2024/sunset.jpg");
                     ("size", JNum 4096); ("modified_at", JStr "2024-01-05T18:30:00");
                     ("file_type", JStr "image")]])].

Definition goa_server (r : Api.Request) : Api.Fetched :=
  if String.eqb (Api.url r) "/api/files?path=%2FGoa2024&file_type=all&sort=name"
  then Api.Responded {| Api.status := 200; Api.json := Some goa_listing |}
  else Api.Responded {| Api.status := 404; Api.json := None |}.

Definition entering_goa : State :=
  {| currentPath := "/Goa2024"; folders := []; files := []; loading := true;
     search := ""; fileType := "all"; sort := "name"; view := list_view;
     selected := ∅; cards := ∅ |}.

Definition viewer : Api.World :=
  {| Api.localStorage := <["fs_token" := "jwt"]> ∅; Api.reloads := 0 |}.

Section Render.

Variable token : option string.

Definition card_state (d : State) (key : string) : CardState :=
  default fresh_card (cards d !! key).

Definition file_cell (d : State) (f : FileEntry) : Item :=
  FileCell (FileCard token f (bool_decide (path f ∈ selected d)) (card_state d (path f))).

Definition file_line (d : State) (f : FileEntry) : Item :=
  FileLine (FileRow token f (bool_decide (path f ∈ selected d)) (card_state d (path f))).

Definition is_nil {A} (l : list A) : bool :=
  match l with [] => true | _ => false end.

Definition render (d : State) : Main :=
  if loading d then Spinner
  else if is_nil (folders d) && is_nil (files d) then
    EmptyState
      (if negb (String.eqb (search d) "") || negb (String.eqb (fileType d) "all")
       then "No files match your filters" else "This folder is empty")
      (if negb (String.eqb (search d) "") then "Try a different search term"
       else "Navigate to a folder that contains images or videos")
  else
    match view d with
    | grid =>
        GridView
          ((if is_nil (folders d) then []
            else [ {| heading := if is_nil (files d) then None else Some "Folders";
                      cells := (fun f => FolderCell (FolderCard f)) <$> folders d |} ])
           ++ (if is_nil (files d) then []
               else [ {| heading := if is_nil (folders d) then None else Some "Files";
                         cells := file_cell d <$> files d |} ]))
    | list_view =>
        ListView (((fun f => FolderLine (FolderRow f)) <$> folders d)
                    ++ (file_line d <$> files d))
    end.

(** The entries of the page from top to bottom. *)
Definition document_order (m : Main) : list Item :=
  match m with
  | Spinner | EmptyState _ _ => []
  | GridView blocks => concat (cells <$> blocks)
  | ListView rows => rows
  end.

Definition is_folder (i : Item) : bool :=
  match i with FolderCell _ | FolderLine _ => true | _ => false end.
Definition is_file (i : Item) : bool := negb (is_folder i).

(** The name an item shows. *)
Definition label (i : Item) : string :=
  match i with
  | FolderCell v | FolderLine v => shown_name v
  | FileCell v => card_name v
  | FileLine v => row_name v
  end.

(** The [onError] of the thumbnail image of the card keyed [key]. *)
Definition thumb_error (key : string) (d : State) : State :=
  {| currentPath := currentPath d; folders := folders d; files := files d;
     loading := loading d; search := search d; fileType := fileType d;
     sort := sort d; view := view d; selected := selected d;
     cards := <[key := on_thumb_error (card_state d key)]> (cards d) |}.

(** **** Folders first *)

Definition folder_items (d : State) : list Item :=
  match view d with
  | grid => (fun f => FolderCell (FolderCard f)) <$> folders d
  | list_view => (fun f => FolderLine (FolderRow f)) <$> folders d
  end.

Definition file_items (d : State) : list Item :=
  match view d with
  | grid => file_cell d <$> files d
  | list_view => file_line d <$> files d
  end.

Lemma render_order d :
  document_order (render d)
  = if loading d then [] else (folder_items d ++ file_items d)%list.
Proof.
  unfold render, folder_items, file_items.
  destruct (loading d); [reflexivity|].
  destruct (folders d) as [|fo fos], (files d) as [|fi fis], (view d);
    simpl; rewrite ?app_nil_r; reflexivity.
Qed.

Lemma folder_items_are_folders d : Forall (fun i => is_folder i = true) (folder_items d).
Proof.
  unfold folder_items. destruct (view d); apply Forall_fmap, Forall_forall;
    intros; reflexivity.
Qed.

Lemma file_items_are_files d : Forall (fun i => is_file i = true) (file_items d).
Proof.
  unfold file_items. destruct (view d); apply Forall_fmap, Forall_forall;
    intros; reflexivity.
Qed.

Lemma folder_items_labels d : label <$> folder_items d = folder_name <$> folders d.
Proof.
  unfold folder_items. destruct (view d); rewrite <- list_fmap_compose;
    apply list_fmap_ext; intros; reflexivity.
Qed.

Lemma file_items_labels d : label <$> file_items d = name <$> files d.
Proof.
  unfold file_items. destruct (view d); rewrite <- list_fmap_compose;
    apply list_fmap_ext; intros; reflexivity.
Qed.

(** In a list made of folders followed by files, every folder stands
    before every file. *)
Lemma folders_precede (front back : list Item) i j x y :
  Forall (fun i => is_folder i = true) front ->
  Forall (fun i => is_file i = true) back ->
  (front ++ back)%list !! i = Some x -> is_file x = true ->
  (front ++ back)%list !! j = Some y -> is_folder y = true ->
  (j < i)%nat.
Proof.
  intros Hfront Hback Hi Hx Hj Hy.
  assert (length front <= i)%nat as Hle.
  { destruct (Nat.le_gt_cases (length front) i) as [|Hlt]; [assumption|].
    rewrite lookup_app_l in Hi by assumption.
    rewrite Forall_lookup in Hfront. specialize (Hfront _ _ Hi).
    unfold is_file in Hx. rewrite Hfront in Hx. discriminate. }
  assert (j < length front)%nat as Hlt.
  { destruct (Nat.le_gt_cases (length front) j) as [Hge|]; [|assumption].
    rewrite lookup_app_r in Hj by assumption.
    rewrite Forall_lookup in Hback. specialize (Hback _ _ Hj).
    unfold is_file in Hback. rewrite Hy in Hback. discriminate. }
  lia.
Qed.

End Render.

(** What [getFiles] resolves with when the server answers [ok]. *)
Lemma getFiles_answer fetch params w res data :
  fetch (Api.req_request (Api.localStorage w !! "fs_token")
           ("/files?" +:+ Api.getFiles_query params) Api.no_opts) = Api.Responded res ->
  Api.ok res = true -> Api.json res = Some data ->
  Api.getFiles fetch params w = (w, Api.Return data).
Proof.
  intros Hfetch Hok Hjson.
  assert ((Api.status res =? 401) = false) as Hne.
  { pose proof Hok as Hle. unfold Api.ok in Hle. apply andb_true_iff in Hle as [_ Hle]. lia. }
  unfold Api.getFiles, Api.req, Api.bind, Api.getToken, Api.getItem, Api.do_fetch.
  rewrite Hfetch. unfold Api.ret at 1. rewrite Hne, Hok. cbn [negb].
  unfold Api.ret at 1, Api.res_json. rewrite Hjson. reflexivity.
Qed.

Lemma decode_described_folders fjs fs :
  Forall2 describes_folder fjs fs -> decode_folder <$> fjs = fs.
Proof.
  induction 1 as [|j e fjs fs (Hn & Hp & Hc & Hm) _ IH]; [reflexivity|].
  rewrite fmap_cons, IH. f_equal. unfold decode_folder. rewrite Hn, Hp, Hc, Hm.
  destruct e; reflexivity.
Qed.

Lemma decode_described_files gjs gs :
  Forall2 describes_file gjs gs -> decode_file <$> gjs = gs.
Proof.
  induction 1 as [|j e gjs gs (Hn & Hp & Hs & Hm & Ht) _ IH]; [reflexivity|].
  rewrite fmap_cons, IH. f_equal. unfold decode_file. rewrite Hn, Hp, Hs, Hm, Ht.
  destruct e; reflexivity.
Qed.

(** C8. Whatever the sort key (and the search and the filter) the
    listing is asked with, when the server answers the request of
    [getFiles] with the folders [fs] and the files [gs] as two
    collections, [loadFiles] stores exactly [fs] and exactly [gs], apart
    and in the order received, and the page then shows the names of [fs]
    followed by the names of [gs].  And in every state, in the grid as in
    the list, the page is all folder items followed by all file items,
    each group in its stored order: every folder stands before every
    file. *)
Theorem folders_listed_before_files (fetch : Api.Request -> Api.Fetched)
    (token : option string) (d : State) (w : Api.World) (res : Api.Response)
    (data : Json) (fjs gjs : list Json) (fs : list FolderEntry) (gs : list FileEntry) :
  fetch (Api.req_request (Api.localStorage w !! "fs_token")
           ("/files?" +:+ Api.getFiles_query
                            {| Api.p_path := Some (currentPath d);
                               Api.p_search := Some (search d);
                               Api.p_file_type := Some (fileType d);
                               Api.p_sort := Some (sort d) |}) Api.no_opts)
    = Api.Responded res ->
  Api.ok res = true -> Api.json res = Some data ->
  get "folders" data = Some (JArr fjs) -> get "files" data = Some (JArr gjs) ->
  Forall2 describes_folder fjs fs -> Forall2 describes_file gjs gs ->
  (exists d',
      loadFiles fetch d w = (w, Api.Return d')
      /\ folders d' = fs /\ files d' = gs
      /\ loading d' = false /\ view d' = view d /\ sort d' = sort d
      /\ currentPath d' = currentPath d
      /\ label <$> document_order (render token d')
         = ((folder_name <$> fs) ++ (name <$> gs))%list)
  /\ (forall s : State, exists front back,
        document_order (render token s) = (front ++ back)%list
        /\ Forall (fun i => is_folder i = true) front
        /\ Forall (fun i => is_file i = true) back
        /\ (loading s = false ->
             label <$> front = folder_name <$> folders s
             /\ label <$> back = name <$> files s))
  /\ (forall (s : State) i j x y,
        document_order (render token s) !! i = Some x -> is_file x = true ->
        document_order (render token s) !! j = Some y -> is_folder y = true ->
        (j < i)%nat).
Proof.
  intros Hfetch Hok Hjson Hfolders Hfiles Hfs Hgs.
  split; [|split].
  - unfold loadFiles. cbv zeta.
    rewrite (getFiles_answer fetch _ w res data Hfetch Hok Hjson).
    destruct data as [| | | | |fields]; try discriminate.
    eexists. split; [reflexivity|]. cbn [folders files loading view sort currentPath].
    assert (listed_folders (JObj fields) = fs) as Hlf.
    { unfold listed_folders. rewrite Hfolders. apply decode_described_folders, Hfs. }
    assert (listed_files (JObj fields) = gs) as Hlg.
    { unfold listed_files. rewrite Hfiles. apply decode_described_files, Hgs. }
    rewrite Hlf, Hlg. repeat (split; [reflexivity|]).
    rewrite render_order. cbn [loading].
    rewrite fmap_app, folder_items_labels, file_items_labels. reflexivity.
  - intros s. rewrite render_order. destruct (loading s) eqn:L.
    + exists [], []. repeat split; try constructor; discriminate.
    + exists (folder_items s), (file_items token s).
      split; [reflexivity|].
      split; [apply folder_items_are_folders|].
      split; [apply file_items_are_files|].
      intros _. split; [apply folder_items_labels | apply file_items_labels].
  - intros s i j x y. rewrite render_order. destruct (loading s).
    + rewrite lookup_nil. discriminate.
    + apply folders_precede;
        [apply folder_items_are_folders | apply file_items_are_files].
Qed.

Lemma folders_listed_before_files_witness :
  (exists d',
      loadFiles goa_server entering_goa viewer = (viewer, Api.Return d')
      /\ folders d' = [day1] /\ files d' = [beach; sunset]
      /\ loading d' = false /\ view d' = view entering_goa /\ sort d' = sort entering_goa
      /\ currentPath d' = currentPath entering_goa
      /\ label <$> document_order (render (Some "jwt") d')
         = ((folder_name <$> [day1]) ++ (name <$> [beach; sunset]))%list)
  /\ (forall s : State, exists front back,
        document_order (render (Some "jwt") s) = (front ++ back)%list
        /\ Forall (fun i => is_folder i = true) front
        /\ Forall (fun i => is_file i = true) back
        /\ (loading s = false ->
             label <$> front = folder_name <$> folders s
             /\ label <$> back = name <$> files s))
  /\ (forall (s : State) i j x y,
        document_order (render (Some "jwt") s) !! i = Some x -> is_file x = true ->
        document_order (render (Some "jwt") s) !! j = Some y -> is_folder y = true ->
        (j < i)%nat).
Proof.
  apply (folders_listed_before_files goa_server (Some "jwt") entering_goa viewer
           {| Api.status := 200; Api.json := Some goa_listing |} goa_listing
           [JObj [("name", JStr "day1"); ("path", JStr "/Goa2024/day1");
                  ("type", JStr "folder"); ("item_count", JNum 12);
                  ("modified_at", JStr "2024-01-05T09:00:00")]]
           [JObj [("name", JStr "beach.jpg"); ("path", JStr "/Goa2024/beach.jpg");
                  ("size", JNum 2048); ("modified_at", JStr "2024-01-05T10:00:00");
                  ("file_type", JStr "image")];
            JObj [("name", JStr "sunset.jpg"); ("path", JStr "/Goa2024/sunset.jpg");
                  ("size", JNum 4096); ("modified_at", JStr "2024-01-05T18:30:00");
                  ("file_type", JStr "image")]]
           [day1] [beach; sunset]);
    try reflexivity; repeat constructor.
Defined.

(** The page of that listing, from the top. *)
Example goa_page_order :
  label <$> document_order
              (render (Some "jwt")
                 (match snd (loadFiles goa_server entering_goa viewer) with
                  | Api.Return d' => d'
                  | Api.Throw _ => entering_goa
                  end))
  = ["day1"; "beach.jpg"; "sunset.jpg"].
Proof. vm_compute. reflexivity. Qed.

(** **** A thumbnail that fails *)

Lemma card_state_thumb_error d key :
  card_state (thumb_error key d) key = on_thumb_error (card_state d key).
Proof. unfold card_state, thumb_error; simpl. rewrite lookup_insert_eq. reflexivity. Qed.

Lemma card_state_thumb_error_ne d key other :
  key <> other -> card_state (thumb_error key d) other = card_state d other.
Proof.
  intros H. unfold card_state, thumb_error; simpl.
  rewrite lookup_insert_ne by assumption. reflexivity.
Qed.

Lemma thumb_error_labels token d key :
  label <$> document_order (render token (thumb_error key d))
  = label <$> document_order (render token d).
Proof.
  rewrite !render_order.
  change (loading (thumb_error key d)) with (loading d).
  destruct (loading d); [reflexivity|].
  rewrite !fmap_app, !folder_items_labels, !file_items_labels. reflexivity.
Qed.

(** C7. When the thumbnail of an image entry fails to load, its card
    records the error and shows the icon of its type in place of the
    image (the grid card the image icon with the extension, the list row
    the plain file icon).  Every entry with another path is rendered as
    before, the listing keeps its folders and files, and the page shows
    the same names in the same order. *)
Theorem thumbnail_failure_is_local (token : option string) (d : State) (f : FileEntry) :
  file_type f = "image" ->
  let d' := thumb_error (path f) d in
  thumbErr (card_state d' (path f)) = true
  /\ file_cell token d' f
     = FileCell {| card_selected := bool_decide (path f ∈ selected d);
                   card_thumb := ThumbIcon IconImage (extension f);
                   card_name := name f;
                   card_size := fmtSize (bytes (size f));
                   card_menu := menuOpen (card_state d (path f)) |}
  /\ file_line token d' f
     = FileLine {| row_selected := bool_decide (path f ∈ selected d);
                   row_thumb := RowIcon IconFile;
                   row_name := name f;
                   row_size := fmtSize (bytes (size f));
                   row_type := "image";
                   row_menu := menuOpen (card_state d (path f)) |}
  /\ (forall g, path g <> path f ->
        file_cell token d' g = file_cell token d g
        /\ file_line token d' g = file_line token d g)
  /\ folders d' = folders d /\ files d' = files d
  /\ label <$> document_order (render token d')
     = label <$> document_order (render token d).
Proof.
  intros Himg d'. subst d'.
  split; [rewrite card_state_thumb_error; reflexivity|].
  split.
  { unfold file_cell, FileCard. rewrite card_state_thumb_error, Himg. reflexivity. }
  split.
  { unfold file_line, FileRow. rewrite card_state_thumb_error, Himg. reflexivity. }
  split.
  { intros g Hg. unfold file_cell, file_line.
    rewrite card_state_thumb_error_ne by congruence. split; reflexivity. }
  split; [reflexivity|]. split; [reflexivity|].
  apply thumb_error_labels.
Qed.

Lemma thumbnail_failure_is_local_witness :
  let d' := thumb_error (path beach) goa in
  thumbErr (card_state d' (path beach)) = true
  /\ file_cell (Some "jwt") d' beach
     = FileCell {| card_selected := bool_decide (path beach ∈ selected goa);
                   card_thumb := ThumbIcon IconImage (extension beach);
                   card_name := name beach;
                   card_size := fmtSize (bytes (size beach));
                   card_menu := menuOpen (card_state goa (path beach)) |}
  /\ file_line (Some "jwt") d' beach
     = FileLine {| row_selected := bool_decide (path beach ∈ selected goa);
                   row_thumb := RowIcon IconFile;
                   row_name := name beach;
                   row_size := fmtSize (bytes (size beach));
                   row_type := "image";
                   row_menu := menuOpen (card_state goa (path beach)) |}
  /\ (forall g, path g <> path beach ->
        file_cell (Some "jwt") d' g = file_cell (Some "jwt") goa g
        /\ file_line (Some "jwt") d' g = file_line (Some "jwt") goa g)
  /\ folders d' = folders goa /\ files d' = files goa
  /\ label <$> document_order (render (Some "jwt") d')
     = label <$> document_order (render (Some "jwt") goa).
Proof.
  exact (thumbnail_failure_is_local (Some "jwt") goa beach eq_refl).
Defined.

Example sunset_keeps_its_thumbnail :
  card_thumb (FileCard (Some "jwt") sunset false
                (card_state (thumb_error (path beach) goa) (path sunset)))
  = ThumbImg "/api/files/thumbnail?path=%2FGoa2024%2Fsunset.jpg&token=jwt" "sunset.jpg".
Proof. vm_compute. reflexivity. Qed.

End Dashboard.

(** ** The media-serving backend

    [backend/main.py] (the FastAPI application: authentication, the
    filesystem browser, streaming, thumbnails, the ZIP download) is not
    among the sources.  Each definition of this module that stands for a
    part of it is written from the words of the specification, and says
    so, with the section it follows. *)
Module Backend.

(** Modelled from the spec: the backend's error type, missing from the
    sources, after the taxonomy of section 7. *)
Inductive Error :=
| Unauthorized
| Forbidden
| NotFound
| StorageUnavailable
| ThumbnailUnavailable
| TranscodeUnavailable
| ArchiveTruncated.

Inductive Result (A : Type) :=
| Ok (a : A)
| Err (e : Error).
Arguments Ok {A} a.
Arguments Err {A} e.

(** Modelled from the spec: the body of the backend's error responses,
    missing from the sources; section 7 lets "no raw OS paths or stack
    traces reach the client", so it is a fixed text per kind. *)
Definition detail (e : Error) : string :=
  match e with
  | Unauthorized => "Unauthorized"
  | Forbidden => "Forbidden"
  | NotFound => "Not found"
  | StorageUnavailable => "Storage unavailable"
  | ThumbnailUnavailable => "Thumbnail unavailable"
  | TranscodeUnavailable => "Transcode unavailable"
  | ArchiveTruncated => "Archive truncated"
  end.

(** *** The filesystem under and around MediaRoot *)

(** An absolute path, as its components. *)
Abbreviation Path := (list string).

(** Modelled from the spec: what the backend finds at a path (sections 3
    and 4.2): a file with its bytes and modification time, a directory,
    or a symbolic link, absolute or relative to the directory it is in. *)
Inductive Node :=
| File (content : list Byte.byte) (mtime : Z)
| Dir (mtime : Z)
| Link (absolute : bool) (target : list string).

(** Modelled from the spec: the backend's view of the disk and its
    configuration (section 3), missing from the sources.  [nodes] maps
    each physical path to what is stored there; [root] is MediaRoot,
    already canonical; [max_links] bounds how many components and links
    one resolution follows before it gives up. *)
Record Store := {
  nodes : gmap (list string) Node;
  root : list string;
  max_links : nat;
}.

(** The components of a virtual path: [/Goa2024/Day1] is
    [Goa2024], [Day1]. *)
Definition segments (virtualPath : string) : list string :=
  List.filter (fun seg => negb (String.eqb seg "")) (JS.split_on "/" virtualPath).

(** Modelled from the spec: the backend's canonicalization, missing from
    the sources (section 4.2: "resolve [.]/[..]/symlinks").  [cur] is the
    canonical prefix reached so far, [todo] the components still to walk;
    a link puts its target in front of what is left.  A component that
    does not exist, or a walk that outruns [fuel], is [NotFound]. *)
Fixpoint realpath (fs : gmap (list string) Node) (fuel : nat)
    (cur : list string) (todo : list string) : Result (list string) :=
  match fuel with
  | O => Err NotFound
  | S fuel =>
      match todo with
      | [] => Ok cur
      | seg :: rest =>
          if String.eqb seg "" || String.eqb seg "." then realpath fs fuel cur rest
          else if String.eqb seg ".." then realpath fs fuel (removelast cur) rest
          else
            match fs !! (cur ++ [seg])%list with
            | None => Err NotFound
            | Some (Link absolute target) =>
                realpath fs fuel (if absolute then [] else cur) (target ++ rest)%list
            | Some _ => realpath fs fuel (cur ++ [seg])%list rest
            end
      end
  end.

(** Modelled from the spec: the backend's path resolution, missing from
    the sources, after the algorithm of section 4.2: join MediaRoot with
    the virtual path, canonicalize, then verify that the canonical path is
    still a descendant of MediaRoot; [Forbidden] when it is not. *)
Definition resolve (s : Store) (virtualPath : string) : Result (list string) :=
  match realpath (nodes s) (max_links s) (root s) (segments virtualPath) with
  | Ok p => if bool_decide (root s `prefix_of` p) then Ok p else Err Forbidden
  | Err e => Err e
  end.

(** Modelled from the spec: resolution to an existing file, and to an
    existing directory (sections 4.2 and 4.4: [NotFound] when the path
    resolves to nothing of that kind). *)
Definition resolve_file (s : Store) (virtualPath : string)
  : Result (list string * list Byte.byte * Z) :=
  match resolve s virtualPath with
  | Ok p =>
      match nodes s !! p with
      | Some (File content mtime) => Ok (p, content, mtime)
      | _ => Err NotFound
      end
  | Err e => Err e
  end.

Definition resolve_dir (s : Store) (virtualPath : string) : Result (list string) :=
  match resolve s virtualPath with
  | Ok p =>
      match nodes s !! p with
      | Some (Dir _) => Ok p
      | _ => Err NotFound
      end
  | Err e => Err e
  end.

(** *** Directory Index *)

(** The immediate children of a directory: every stored path one
    component longer. *)
Definition children (s : Store) (dir : list string) : list (string * Node) :=
  omap (fun kv => let name := List.last (fst kv) "" in
                  if bool_decide (fst kv = dir ++ [name])%list
                  then Some (name, snd kv) else None)
       (map_to_list (nodes s)).

Definition is_dir (n : Node) : bool := match n with Dir _ => true | _ => false end.
Definition is_file (n : Node) : bool := match n with File _ _ => true | _ => false end.

Record Listing := {
  folder_names : list string;
  file_names : list string;
}.

(** Modelled from the spec: the backend's [list] (section 4.2), missing
    from the sources, before search, filter and sort are applied: the
    folders and the files of the one directory. *)
Definition list_dir (s : Store) (virtualPath : string) : Result Listing :=
  match resolve_dir s virtualPath with
  | Ok p =>
      Ok {| folder_names := fst <$> List.filter (fun c => is_dir (snd c)) (children s p);
            file_names := fst <$> List.filter (fun c => is_file (snd c)) (children s p) |}
  | Err e => Err e
  end.

Record DirectoryStats := {
  totalFiles : nat;
  totalSizeBytes : nat;
}.

Definition node_size (n : Node) : nat :=
  match n with File content _ => length content | _ => 0%nat end.

(** Modelled from the spec: the backend's [stats] (section 4.2), missing
    from the sources. *)
Definition stats (s : Store) (virtualPath : string) : Result DirectoryStats :=
  match resolve_dir s virtualPath with
  | Ok p =>
      let fs := List.filter (fun c => is_file (snd c)) (children s p) in
      Ok {| totalFiles := length fs;
            totalSizeBytes := list_sum (node_size ∘ snd <$> fs) |}
  | Err e => Err e
  end.

(** *** Streaming Server *)

(** A decimal digit as the constructor of [Decimal.uint] it stands for. *)
Definition digit (c : ascii) : option (Decimal.uint -> Decimal.uint) :=
  match c with
  | "0" => Some Decimal.D0 | "1" => Some Decimal.D1 | "2" => Some Decimal.D2
  | "3" => Some Decimal.D3 | "4" => Some Decimal.D4 | "5" => Some Decimal.D5
  | "6" => Some Decimal.D6 | "7" => Some Decimal.D7 | "8" => Some Decimal.D8
  | "9" => Some Decimal.D9 | _ => None
  end%char.

(** The digits a text starts with, and what follows them. *)
Fixpoint read_digits (t : string) : Decimal.uint * string :=
  match t with
  | EmptyString => (Decimal.Nil, EmptyString)
  | String c rest =>
      match digit c with
      | Some d => let (u, r) := read_digits rest in (d u, r)
      | None => (Decimal.Nil, t)
      end
  end.

Definition show_N (n : N) : string := NilEmpty.string_of_uint (N.to_uint n).

(** What follows [pre] in [t], when [t] starts with [pre]. *)
Fixpoint strip_prefix (pre t : string) : option string :=
  match pre with
  | EmptyString => Some t
  | String a pre' =>
      match t with
      | String b t' => if Ascii.eqb a b then strip_prefix pre' t' else None
      | EmptyString => None
      end
  end.

(** Modelled from the spec: the backend's reading of the [Range] header,
    missing from the sources, in the forms section 4.4 names:
    [bytes=start-end] and [bytes=start-].  Any other text is read as no
    range. *)
Definition parse_range (header : string) : option (N * option N) :=
  match strip_prefix "bytes=" header with
  | None => None
  | Some t =>
      match read_digits t with
      | (Decimal.Nil, _) => None
      | (first, String "-" t') =>
          match read_digits t' with
          | (Decimal.Nil, EmptyString) => Some (N.of_uint first, None)
          | (last, EmptyString) => Some (N.of_uint first, Some (N.of_uint last))
          | _ => None
          end
      | _ => None
      end
  end.

(** Modelled from the spec: what a streaming response consists of
    (section 4.4): status, [Content-Range], [Content-Length],
    [Content-Disposition], and the bytes. *)
Record Response := {
  status : Z;
  content_range : option string;
  content_length : N;
  content_disposition : option string;
  body : list Byte.byte;
}.

(** Modelled from the spec: the backend's range handling, missing from
    the sources, after section 4.4: a range yields 206 with
    [Content-Range] and the span asked for, clamped to the file; no range
    yields the full file with [Content-Length].  A range that starts at or
    past the end is answered 416, which the spec does not fix. *)
Definition serve (content : list Byte.byte) (range : option string) : Response :=
  let size := N.of_nat (length content) in
  match range ≫= parse_range with
  | Some (first, stop) =>
      let last := match stop with
                  | Some e => N.min e (size - 1)
                  | None => (size - 1)%N
                  end in
      if (first <? size)%N && (first <=? last)%N then
        {| status := 206;
           content_range := Some ("bytes " +:+ show_N first +:+ "-" +:+ show_N last
                                    +:+ "/" +:+ show_N size);
           content_length := last - first + 1;
           content_disposition := None;
           body := take (N.to_nat (last - first + 1)) (drop (N.to_nat first) content) |}
      else
        {| status := 416;
           content_range := Some ("bytes */" +:+ show_N size);
           content_length := 0; content_disposition := None; body := [] |}
  | None =>
      {| status := 200; content_range := None; content_length := size;
         content_disposition := None; body := content |}
  end.

(** Modelled from the spec: the backend's [streamPreview] (section 4.4),
    missing from the sources: the containment check, then the bytes. *)
Definition streamPreview (s : Store) (virtualPath : string) (range : option string)
  : Result Response :=
  match resolve_file s virtualPath with
  | Ok (_, content, _) => Ok (serve content range)
  | Err e => Err e
  end.

(** Modelled from the spec: the backend's [streamDownload] (section
    4.4), missing from the sources: the full file, as an attachment under
    its own name. *)
Definition streamDownload (s : Store) (virtualPath : string) : Result Response :=
  match resolve_file s virtualPath with
  | Ok (p, content, _) =>
      Ok {| status := 200; content_range := None;
            content_length := N.of_nat (length content);
            content_disposition := Some ("attachment; filename=" +:+ List.last p "");
            body := content |}
  | Err e => Err e
  end.

(** *** Bulk Archive Streamer *)

(** Modelled from the spec: the two policies section 4.6 leaves open for
    a path that does not resolve inside MediaRoot (which one the backend
    follows is not in the sources). *)
Inductive ArchivePolicy := SkipInvalid | FailBatch.

Record Archive := {
  entries : list (list string * list Byte.byte);
  warnings : list string;
}.

(** Modelled from the spec: the backend's [streamZip] (section 4.6),
    missing from the sources: every path is resolved like any other; one
    that is refused is skipped with a warning or fails the batch, by
    policy. *)
Fixpoint streamZip (policy : ArchivePolicy) (s : Store) (virtualPaths : list string)
  : Result Archive :=
  match virtualPaths with
  | [] => Ok {| entries := []; warnings := [] |}
  | v :: rest =>
      match resolve_file s v, policy with
      | Ok (p, content, _), _ =>
          match streamZip policy s rest with
          | Ok a => Ok {| entries := (p, content) :: entries a; warnings := warnings a |}
          | Err e => Err e
          end
      | Err e, FailBatch => Err e
      | Err _, SkipInvalid =>
          match streamZip policy s rest with
          | Ok a => Ok {| entries := entries a; warnings := v :: warnings a |}
          | Err e => Err e
          end
      end
  end.

(** *** Thumbnail Cache *)

(** The key of section 3: (virtualPath, sourceMtime, sourceSize). *)
Abbreviation Key := (string * Z * nat)%type.

(** Modelled from the spec: the backend's thumbnail cache, missing from
    the sources, after sections 3 and 4.3: the cached thumbnails, the
    generation jobs in flight with the requests waiting on each, what has
    been answered to which request, and a log of the generations
    started. *)
Record Thumbs := {
  cache : gmap Key (list Byte.byte);
  inflight : gmap Key (list nat);
  delivered : list (nat * Result (list Byte.byte));
  generations : list Key;
}.

Definition no_thumbs : Thumbs :=
  {| cache := ∅; inflight := ∅; delivered := []; generations := [] |}.

Definition deliver (r : nat) (out : Result (list Byte.byte)) (t : Thumbs) : Thumbs :=
  {| cache := cache t; inflight := inflight t;
     delivered := (r, out) :: delivered t; generations := generations t |}.

(** Modelled from the spec: what the cache does with a request for a key
    (section 4.3; the code is missing from the sources): a cached
    thumbnail is answered at once; a request that finds a generation in
    flight joins its waiters; otherwise it starts the one generation. *)
Definition request (r : nat) (k : Key) (t : Thumbs) : Thumbs :=
  match cache t !! k with
  | Some thumbnail => deliver r (Ok thumbnail) t
  | None =>
      match inflight t !! k with
      | Some waiting =>
          {| cache := cache t; inflight := <[k := r :: waiting]> (inflight t);
             delivered := delivered t; generations := generations t |}
      | None =>
          {| cache := cache t; inflight := <[k := [r]]> (inflight t);
             delivered := delivered t; generations := k :: generations t |}
      end
  end.

(** Modelled from the spec: what the cache does when a generation ends
    (section 4.3; the code is missing from the sources): all waiters
    receive its result, success or failure; a success is cached. *)
Definition finish (k : Key) (out : Result (list Byte.byte)) (t : Thumbs) : Thumbs :=
  match inflight t !! k with
  | None => t
  | Some waiting =>
      {| cache := match out with
                  | Ok thumbnail => <[k := thumbnail]> (cache t)
                  | Err _ => cache t
                  end;
         inflight := delete k (inflight t);
         delivered := ((fun r => (r, out)) <$> waiting) ++ delivered t;
         generations := generations t |}
  end.

(** Modelled from the spec: the backend's [getThumbnail] (section 4.3),
    missing from the sources, for request [r]: the containment check,
    then the cache under the source's key. *)
Definition getThumbnail (s : Store) (r : nat) (virtualPath : string) (t : Thumbs) : Thumbs :=
  match resolve_file s virtualPath with
  | Ok (_, content, mtime) => request r (virtualPath, mtime, length content) t
  | Err e => deliver r (Err e) t
  end.

(** What happens at the cache, in the order it happens. *)
Inductive ThumbEvent :=
| Arrives (r : nat) (k : Key)
| Finishes (k : Key) (out : Result (list Byte.byte)).

Definition thumb_step (t : Thumbs) (ev : ThumbEvent) : Thumbs :=
  match ev with
  | Arrives r k => request r k t
  | Finishes k out => finish k out t
  end.

Definition thumb_run (t : Thumbs) (evs : list ThumbEvent) : Thumbs :=
  fold_left thumb_step evs t.

(** *** Identity & Access: where a request carries its token *)












(** *** What the properties below speak of *)

(** A virtual path escapes when its canonical form exists and is not
    under MediaRoot: through [..] or through a link. *)
Definition escapes (s : Store) (virtualPath : string) : Prop :=
  exists p, realpath (nodes s) (max_links s) (root s) (segments virtualPath) = Ok p
            /\ ~ root s `prefix_of` p.

(** An archive entry that is a file stored under MediaRoot. *)
Definition stored_inside (s : Store) (entry : list string * list Byte.byte) : Prop :=
  root s `prefix_of` fst entry
  /\ exists mtime, nodes s !! fst entry = Some (File (snd entry) mtime).

(** A text that does not go on with a digit. *)
Definition no_digit_ahead (t : string) : Prop :=
  match t with
  | EmptyString => True
  | String c _ => digit c = None
  end.

(** The events that concern a key. *)
Definition about (k : Key) (ev : ThumbEvent) : bool :=
  match ev with
  | Arrives _ k' | Finishes k' _ => bool_decide (k' = k)
  end.

(** How many generations were started for a key. *)
Definition started (k : Key) (t : Thumbs) : nat :=
  length (List.filter (fun k' => bool_decide (k' = k)) (generations t)).

(** A media root with a folder, two files, and a link that leaves it. *)
Definition trip_store : Store :=
  {| nodes := list_to_map
       [ (["srv"], Dir 0);
         (["srv"; "media"], Dir 0);
         (["srv"; "media"; "a.jpg"], File [Byte.x01; Byte.x02; Byte.x03; Byte.x04] 5);
         (["srv"; "media"; "sub"], Dir 0);
         (["srv"; "media"; "sub"; "b.mp4"], File [Byte.x09; Byte.x0a] 2);
         (["srv"; "media"; "out"], Link true ["etc"]);
         (["etc"], Dir 0);
         (["etc"; "passwd"], File [Byte.x07] 1) ];
     root := ["srv"; "media"];
     max_links := 40 |}.

(** The keys of the two files of [trip_store]. *)
Definition jpg_key : Key := ("/a.jpg", 5, 4%nat).
Definition mp4_key : Key := ("/sub/b.mp4", 2, 2%nat).

(** *** Containment *)

Lemma realpath_error fs fuel cur todo e :
  realpath fs fuel cur todo = Err e -> e = NotFound.
Proof.
  revert cur todo. induction fuel as [|fuel IH]; intros cur todo; simpl.
  - congruence.
  - destruct todo as [|seg rest]; [discriminate|].
    destruct (String.eqb seg "" || String.eqb seg "."); [apply IH|].
    destruct (String.eqb seg ".."); [apply IH|].
    destruct (fs !! (cur ++ [seg])%list) as [[| |]|]; try apply IH. congruence.
Qed.

Lemma resolve_error s v e : resolve s v = Err e -> e = Forbidden \/ e = NotFound.
Proof.
  unfold resolve.
  destruct (realpath _ _ _ _) as [p|e'] eqn:E.
  - case_bool_decide; [discriminate|]. intros [= <-]. left; reflexivity.
  - intros [= <-]. right. exact (realpath_error _ _ _ _ _ E).
Qed.

Lemma resolve_inside s v p : resolve s v = Ok p -> root s `prefix_of` p.
Proof.
  unfold resolve. destruct (realpath _ _ _ _); [|discriminate].
  case_bool_decide; [|discriminate]. intros [= <-]. assumption.
Qed.

Lemma resolve_escapes s v : escapes s v -> resolve s v = Err Forbidden.
Proof.
  intros (p & Hp & Hout). unfold resolve. rewrite Hp.
  case_bool_decide; [contradiction|reflexivity].
Qed.

Lemma resolve_file_error s v e : resolve_file s v = Err e -> e = Forbidden \/ e = NotFound.
Proof.
  unfold resolve_file. destruct (resolve s v) as [p|e'] eqn:E.
  - destruct (nodes s !! p) as [[| |]|]; try discriminate;
      intros [= <-]; right; reflexivity.
  - intros [= <-]. exact (resolve_error _ _ _ E).
Qed.

Lemma resolve_file_inside s v p content mtime :
  resolve_file s v = Ok (p, content, mtime) ->
  root s `prefix_of` p /\ nodes s !! p = Some (File content mtime).
Proof.
  unfold resolve_file. destruct (resolve s v) as [q|] eqn:E; [|discriminate].
  destruct (nodes s !! q) as [[c m| |]|] eqn:N; try discriminate.
  intros [= <- <- <-]. split; [exact (resolve_inside _ _ _ E)|assumption].
Qed.

(** Whatever the policy, an archive holds only files stored under
    MediaRoot. *)
Lemma streamZip_inside policy s vs a :
  streamZip policy s vs = Ok a -> Forall (stored_inside s) (entries a).
Proof.
  revert a. induction vs as [|v rest IH]; intros a; simpl.
  - intros [= <-]. constructor.
  - destruct (resolve_file s v) as [[[p content] mtime]|e] eqn:E.
    + destruct (streamZip policy s rest) as [a'|]; [|destruct policy; discriminate].
      assert (Ok {| entries := (p, content) :: entries a'; warnings := warnings a' |} = Ok a
              -> Forall (stored_inside s) (entries a)) as H.
      { intros [= <-]. simpl. constructor; [|apply IH; reflexivity].
        destruct (resolve_file_inside _ _ _ _ _ E). split; [assumption|].
        exists mtime. assumption. }
      destruct policy; exact H.
    + destruct policy; [|discriminate].
      destruct (streamZip SkipInvalid s rest) as [a'|]; [|discriminate].
      intros [= <-]. simpl. apply IH. reflexivity.
Qed.

Lemma streamZip_skip_total s vs : exists a, streamZip SkipInvalid s vs = Ok a.
Proof.
  induction vs as [|v rest [a IH]]; simpl.
  - eexists; reflexivity.
  - rewrite IH. destruct (resolve_file s v) as [[[p content] mtime]|e];
      eexists; reflexivity.
Qed.

Lemma streamZip_skip_warns s before v after a :
  resolve_file s v = Err Forbidden ->
  streamZip SkipInvalid s (before ++ v :: after)%list = Ok a ->
  v ∈ warnings a.
Proof.
  intros Hv. revert a. induction before as [|w before IH]; intros a; simpl.
  - rewrite Hv. destruct (streamZip SkipInvalid s after); [|discriminate].
    intros [= <-]. simpl. apply list_elem_of_here.
  - destruct (streamZip SkipInvalid s (before ++ v :: after)%list) as [a'|] eqn:E.
    + specialize (IH a' eq_refl).
      destruct (resolve_file s w) as [[[p content] mtime]|e'];
        intros [= <-]; simpl; [assumption|]. apply list_elem_of_further. assumption.
    + destruct (resolve_file s w) as [[[p content] mtime]|e']; discriminate.
Qed.

Lemma streamZip_fail s before v after :
  resolve_file s v = Err Forbidden ->
  exists e, streamZip FailBatch s (before ++ v :: after)%list = Err e
            /\ (e = Forbidden \/ e = NotFound).
Proof.
  intros Hv. induction before as [|w before (e & IH & He)]; simpl.
  - rewrite Hv. exists Forbidden. split; [reflexivity|left; reflexivity].
  - rewrite IH. destruct (resolve_file s w) as [[[p content] mtime]|e'] eqn:E.
    + exists e. split; [reflexivity|assumption].
    + exists e'. split; [reflexivity|]. exact (resolve_file_error _ _ _ E).
Qed.

Lemma link_escapes : escapes trip_store "/out/passwd".
Proof.
  exists ["etc"; "passwd"]. split; [vm_compute; reflexivity|].
  intros [k Hk]. discriminate Hk.
Qed.

Lemma dotdot_escapes : escapes trip_store "/sub/../../../etc/passwd".
Proof.
  exists ["etc"; "passwd"]. split; [vm_compute; reflexivity|].
  intros [k Hk]. discriminate Hk.
Qed.

(** Containment, as the specification lets it hold.  A virtual path whose
    canonical form is outside MediaRoot (by [..] or by a link) is answered
    [Forbidden] by listing, stats, preview, thumbnail and download, with
    the fixed text of that error and nothing of the file.  The archive
    never holds such a file either: under the fail-batch policy the
    request ends in [Forbidden] or [NotFound]; under the skip policy it
    succeeds without the entry and records a warning. *)
Theorem escaping_path_is_refused (s : Store) (v : string) :
  escapes s v ->
  list_dir s v = Err Forbidden
  /\ stats s v = Err Forbidden
  /\ (forall range, streamPreview s v range = Err Forbidden)
  /\ (forall r t, getThumbnail s r v t = deliver r (Err Forbidden) t)
  /\ streamDownload s v = Err Forbidden
  /\ (forall before after,
        exists e, streamZip FailBatch s (before ++ v :: after)%list = Err e
                  /\ (e = Forbidden \/ e = NotFound))
  /\ (forall before after,
        exists a, streamZip SkipInvalid s (before ++ v :: after)%list = Ok a
                  /\ v ∈ warnings a
                  /\ Forall (stored_inside s) (entries a))
  /\ detail Forbidden = "Forbidden".
Proof.
  intros Hesc. pose proof (resolve_escapes _ _ Hesc) as Hr.
  assert (resolve_file s v = Err Forbidden) as Hf
    by (unfold resolve_file; rewrite Hr; reflexivity).
  assert (resolve_dir s v = Err Forbidden) as Hd
    by (unfold resolve_dir; rewrite Hr; reflexivity).
  split; [unfold list_dir; rewrite Hd; reflexivity|].
  split; [unfold stats; rewrite Hd; reflexivity|].
  split; [intros range; unfold streamPreview; rewrite Hf; reflexivity|].
  split; [intros r t; unfold getThumbnail; rewrite Hf; reflexivity|].
  split; [unfold streamDownload; rewrite Hf; reflexivity|].
  split; [intros before after; exact (streamZip_fail s before v after Hf)|].
  split; [|reflexivity].
  intros before after.
  destruct (streamZip_skip_total s (before ++ v :: after)%list) as [a Ha].
  exists a. split; [assumption|]. split.
  - exact (streamZip_skip_warns _ _ _ _ _ Hf Ha).
  - exact (streamZip_inside _ _ _ _ Ha).
Qed.

Lemma escaping_path_is_refused_witness :
  list_dir trip_store "/out/passwd" = Err Forbidden
  /\ stats trip_store "/out/passwd" = Err Forbidden
  /\ (forall range, streamPreview trip_store "/out/passwd" range = Err Forbidden)
  /\ (forall r t, getThumbnail trip_store r "/out/passwd" t = deliver r (Err Forbidden) t)
  /\ streamDownload trip_store "/out/passwd" = Err Forbidden
  /\ (forall before after,
        exists e, streamZip FailBatch trip_store (before ++ "/out/passwd" :: after)%list = Err e
                  /\ (e = Forbidden \/ e = NotFound))
  /\ (forall before after,
        exists a, streamZip SkipInvalid trip_store (before ++ "/out/passwd" :: after)%list = Ok a
                  /\ "/out/passwd" ∈ warnings a
                  /\ Forall (stored_inside trip_store) (entries a))
  /\ detail Forbidden = "Forbidden".
Proof.
  apply (escaping_path_is_refused trip_store "/out/passwd").
  exists ["etc"; "passwd"]. split; [vm_compute; reflexivity|].
  intros [k Hk]. discriminate Hk.
Defined.

(** Under the skip policy, which section 4.6 allows, the request for an
    archive that names a path that escapes is answered with an archive,
    not with [Forbidden] or [NotFound]: which of the two an archive
    request gets is the policy's choice. *)
Lemma archive_skip_answers_ok :
  escapes trip_store "/out/passwd"
  /\ streamZip SkipInvalid trip_store ["/a.jpg"; "/out/passwd"]
     = Ok {| entries := [(["srv"; "media"; "a.jpg"],
                          [Byte.x01; Byte.x02; Byte.x03; Byte.x04])];
             warnings := ["/out/passwd"] |}
  /\ ~ (exists e, streamZip SkipInvalid trip_store ["/a.jpg"; "/out/passwd"] = Err e).
Proof.
  split; [exact link_escapes|].
  split; [vm_compute; reflexivity|].
  intros [e He]. vm_compute in He. discriminate He.
Qed.

(** Nothing is ever served from outside MediaRoot: a preview or a
    download that succeeds carries bytes of a file stored under it. *)
Lemma served_from_inside s v range resp :
  streamPreview s v range = Ok resp \/ streamDownload s v = Ok resp ->
  exists p content mtime,
    root s `prefix_of` p /\ nodes s !! p = Some (File content mtime)
    /\ (body resp = body (serve content range) \/ body resp = content).
Proof.
  unfold streamPreview, streamDownload.
  destruct (resolve_file s v) as [[[p content] mtime]|e] eqn:E.
  - destruct (resolve_file_inside _ _ _ _ _ E) as (Hin & Hnode).
    intros [[= <-]|[= <-]]; exists p, content, mtime; repeat split; auto.
  - intros [|]; discriminate.
Qed.

(** *** Ranges *)

Lemma read_digits_stop t : no_digit_ahead t -> read_digits t = (Decimal.Nil, t).
Proof. destruct t as [|c t]; simpl; [reflexivity|]. intros ->. reflexivity. Qed.

(** Reading back what was printed. *)
Lemma read_digits_print d rest :
  no_digit_ahead rest ->
  read_digits (NilEmpty.string_of_uint d +:+ rest) = (d, rest).
Proof.
  intros Hrest. induction d; simpl; rewrite ?IHd; try reflexivity.
  apply read_digits_stop. assumption.
Qed.

Lemma to_uint_nonnil n : N.to_uint n <> Decimal.Nil.
Proof.
  destruct n as [|p]; simpl; [discriminate|].
  apply DecimalPos.Unsigned.to_uint_nonnil.
Qed.

Lemma parse_open_range n :
  parse_range ("bytes=" +:+ show_N n +:+ "-") = Some (n, None).
Proof.
  unfold parse_range, show_N.
  change (strip_prefix "bytes=" ("bytes=" +:+ NilEmpty.string_of_uint (N.to_uint n) +:+ "-"))
    with (Some (NilEmpty.string_of_uint (N.to_uint n) +:+ "-")).
  cbv beta iota.
  rewrite read_digits_print by reflexivity.
  pose proof (to_uint_nonnil n) as Hnil.
  pose proof (DecimalN.Unsigned.of_to n) as Hback.
  destruct (N.to_uint n); [contradiction| ..]; cbn [read_digits]; rewrite Hback; reflexivity.
Qed.

Lemma serve_open_range content n :
  (n < N.of_nat (length content))%N ->
  serve content (Some ("bytes=" +:+ show_N n +:+ "-"))
  = {| status := 206;
       content_range :=
         Some ("bytes " +:+ show_N n +:+ "-" +:+ show_N (N.of_nat (length content) - 1)
                 +:+ "/" +:+ show_N (N.of_nat (length content)));
       content_length := N.of_nat (length content) - n;
       content_disposition := None;
       body := drop (N.to_nat n) content |}.
Proof.
  intros Hn. unfold serve. simpl mbind. rewrite parse_open_range.
  cbv beta iota zeta.
  assert ((n <? N.of_nat (length content))%N = true) as -> by (apply N.ltb_lt; lia).
  assert ((n <=? N.of_nat (length content) - 1)%N = true) as -> by (apply N.leb_le; lia).
  simpl andb. cbv iota.
  assert ((N.of_nat (length content) - 1 - n + 1)%N = (N.of_nat (length content) - n)%N)
    as -> by lia.
  f_equal. apply take_ge. rewrite length_drop. lia.
Qed.

(** C2.  For a file that resolves under MediaRoot and an offset [n] below
    its size, [Range: bytes=n-] is answered 206 with the bytes from [n]
    to the end (the last [size - n] bytes), [Content-Range: bytes
    n-(size-1)/size] and that length; a request without [Range] is
    answered with the whole file and [Content-Length] equal to its size. *)
Theorem range_from_offset (s : Store) (v : string) (p : list string)
    (content : list Byte.byte) (mtime : Z) (n : N) :
  resolve_file s v = Ok (p, content, mtime) ->
  (n < N.of_nat (length content))%N ->
  streamPreview s v (Some ("bytes=" +:+ show_N n +:+ "-"))
  = Ok {| status := 206;
          content_range :=
            Some ("bytes " +:+ show_N n +:+ "-" +:+ show_N (N.of_nat (length content) - 1)
                    +:+ "/" +:+ show_N (N.of_nat (length content)));
          content_length := N.of_nat (length content) - n;
          content_disposition := None;
          body := drop (N.to_nat n) content |}
  /\ length (drop (N.to_nat n) content) = (length content - N.to_nat n)%nat
  /\ (take (N.to_nat n) content ++ drop (N.to_nat n) content)%list = content
  /\ streamPreview s v None
     = Ok {| status := 200; content_range := None;
             content_length := N.of_nat (length content);
             content_disposition := None; body := content |}.
Proof.
  intros Hv Hn. unfold streamPreview. rewrite Hv.
  split; [rewrite serve_open_range by assumption; reflexivity|].
  split; [apply length_drop|].
  split; [apply take_drop|].
  reflexivity.
Qed.

Lemma range_from_offset_witness :
  streamPreview trip_store "/a.jpg" (Some ("bytes=" +:+ show_N 1 +:+ "-"))
  = Ok {| status := 206;
          content_range :=
            Some ("bytes " +:+ show_N 1 +:+ "-"
                    +:+ show_N (N.of_nat (length [Byte.x01; Byte.x02; Byte.x03; Byte.x04]) - 1)
                    +:+ "/" +:+ show_N (N.of_nat (length [Byte.x01; Byte.x02; Byte.x03; Byte.x04])));
          content_length := N.of_nat (length [Byte.x01; Byte.x02; Byte.x03; Byte.x04]) - 1;
          content_disposition := None;
          body := drop (N.to_nat 1) [Byte.x01; Byte.x02; Byte.x03; Byte.x04] |}
  /\ length (drop (N.to_nat 1) [Byte.x01; Byte.x02; Byte.x03; Byte.x04])
     = (length [Byte.x01; Byte.x02; Byte.x03; Byte.x04] - N.to_nat 1)%nat
  /\ (take (N.to_nat 1) [Byte.x01; Byte.x02; Byte.x03; Byte.x04]
        ++ drop (N.to_nat 1) [Byte.x01; Byte.x02; Byte.x03; Byte.x04])%list
     = [Byte.x01; Byte.x02; Byte.x03; Byte.x04]
  /\ streamPreview trip_store "/a.jpg" None
     = Ok {| status := 200; content_range := None;
             content_length := N.of_nat (length [Byte.x01; Byte.x02; Byte.x03; Byte.x04]);
             content_disposition := None;
             body := [Byte.x01; Byte.x02; Byte.x03; Byte.x04] |}.
Proof.
  apply (range_from_offset trip_store "/a.jpg" ["srv"; "media"; "a.jpg"]
           [Byte.x01; Byte.x02; Byte.x03; Byte.x04] 5 1%N).
  - vm_compute. reflexivity.
  - vm_compute. reflexivity.
Defined.

Example range_of_a_jpg :
  streamPreview trip_store "/a.jpg" (Some "bytes=1-")
  = Ok {| status := 206; content_range := Some "bytes 1-3/4"; content_length := 3;
          content_disposition := None; body := [Byte.x02; Byte.x03; Byte.x04] |}.
Proof. vm_compute. reflexivity. Qed.

(** A closed range is clamped to the file. *)
Example range_clamped :
  streamPreview trip_store "/a.jpg" (Some "bytes=1-200")
  = Ok {| status := 206; content_range := Some "bytes 1-3/4"; content_length := 3;
          content_disposition := None; body := [Byte.x02; Byte.x03; Byte.x04] |}.
Proof. vm_compute. reflexivity. Qed.

(** *** Coalescing *)

Lemma delivered_grows t ev x : x ∈ delivered t -> x ∈ delivered (thumb_step t ev).
Proof.
  intros Hx. destruct ev as [r k|k out]; simpl.
  - unfold request. destruct (cache t !! k); simpl.
    + apply list_elem_of_further. assumption.
    + destruct (inflight t !! k); simpl; assumption.
  - unfold finish. destruct (inflight t !! k); simpl; [|assumption].
    apply elem_of_app. right. assumption.
Qed.

(** An event about another key leaves this key's cache entry, job and
    generation count as they are. *)
Lemma unrelated_step k t ev :
  about k ev = false ->
  cache (thumb_step t ev) !! k = cache t !! k
  /\ inflight (thumb_step t ev) !! k = inflight t !! k
  /\ started k (thumb_step t ev) = started k t.
Proof.
  destruct ev as [r k'|k' out]; simpl; intros Hk;
    apply bool_decide_eq_false in Hk.
  - unfold request. destruct (cache t !! k'); simpl; [repeat split|].
    destruct (inflight t !! k'); simpl; unfold started; simpl.
    + rewrite lookup_insert_ne by assumption. repeat split.
    + rewrite lookup_insert_ne by assumption.
      rewrite bool_decide_eq_false_2 by assumption. repeat split.
  - unfold finish. destruct (inflight t !! k'); simpl; [|repeat split].
    rewrite lookup_delete_ne by assumption. unfold started; simpl.
    destruct out; rewrite ?lookup_insert_ne by assumption; repeat split.
Qed.

Lemma unrelated_run k evs t :
  List.filter (about k) evs = [] ->
  cache (thumb_run t evs) !! k = cache t !! k
  /\ inflight (thumb_run t evs) !! k = inflight t !! k
  /\ started k (thumb_run t evs) = started k t
  /\ (forall x, x ∈ delivered t -> x ∈ delivered (thumb_run t evs)).
Proof.
  revert t. induction evs as [|ev evs IH]; intros t; simpl.
  - intros _. repeat split. auto.
  - destruct (about k ev) eqn:A; [discriminate|]. intros Hevs.
    destruct (IH (thumb_step t ev) Hevs) as (Hc & Hi & Hs & Hd).
    destruct (unrelated_step k t ev A) as (Hc' & Hi' & Hs').
    unfold thumb_run in *. rewrite Hc, Hi, Hs. repeat split; try assumption.
    intros x Hx. apply Hd, delivered_grows. assumption.
Qed.

(** While the one generation runs: later requests join it, and its end
    answers them all alike. *)
Lemma joined_run k out evs : forall t waiting rs,
  cache t !! k = None ->
  inflight t !! k = Some waiting ->
  List.filter (about k) evs = (((fun r => Arrives r k) <$> rs) ++ [Finishes k out])%list ->
  started k (thumb_run t evs) = started k t
  /\ (forall r, r ∈ waiting \/ r ∈ rs -> (r, out) ∈ delivered (thumb_run t evs))
  /\ inflight (thumb_run t evs) !! k = None
  /\ cache (thumb_run t evs) !! k
     = match out with Ok thumbnail => Some thumbnail | Err _ => None end.
Proof.
  induction evs as [|ev evs IH]; intros t waiting rs Hc Hi; simpl.
  - intros H. destruct rs; discriminate H.
  - destruct (about k ev) eqn:A.
    + destruct rs as [|r rs]; simpl; intros [= -> Hrest].
      * (* the generation ends *)
        assert (finish k out t
                = {| cache := match out with
                              | Ok thumbnail => <[k := thumbnail]> (cache t)
                              | Err _ => cache t
                              end;
                     inflight := delete k (inflight t);
                     delivered := ((fun r => (r, out)) <$> waiting) ++ delivered t;
                     generations := generations t |}) as Hfin
          by (unfold finish; rewrite Hi; reflexivity).
        destruct (unrelated_run k evs (finish k out t) Hrest) as (Hc' & Hi' & Hs' & Hd').
        unfold thumb_run in *. simpl. rewrite Hc', Hi', Hs'.
        split; [unfold started; rewrite Hfin; reflexivity|]. split.
        { intros r [Hr|Hr]; [|inversion Hr].
          apply Hd'. rewrite Hfin. simpl.
          apply elem_of_app. left. apply list_elem_of_fmap. exists r. auto. }
        rewrite Hfin. simpl.
        split; [apply lookup_delete_eq|].
        destruct out; [apply lookup_insert_eq|assumption].
      * (* one more request joins *)
        assert (request r k t
                = {| cache := cache t; inflight := <[k := r :: waiting]> (inflight t);
                     delivered := delivered t; generations := generations t |}) as Hreq
          by (unfold request; rewrite Hc, Hi; reflexivity).
        destruct (IH (request r k t) (r :: waiting) rs) as (Hs' & Hd' & Hi' & Hc');
          [rewrite Hreq; assumption
          |rewrite Hreq; apply lookup_insert_eq
          |exact Hrest|].
        unfold thumb_run in *. simpl.
        split; [rewrite Hs'; unfold started; rewrite Hreq; reflexivity|].
        split; [|split; assumption].
        intros r' [Hr'|Hr'].
        -- apply Hd'. left. apply list_elem_of_further. assumption.
        -- apply elem_of_cons in Hr'. destruct Hr' as [->|Hr'].
           ++ apply Hd'. left. apply list_elem_of_here.
           ++ apply Hd'. right. assumption.
    + intros Hrest.
      destruct (unrelated_step k t ev A) as (Hc' & Hi' & Hs').
      edestruct (IH (thumb_step t ev) waiting rs) as (Hs2 & Hd2 & Hi2 & Hc2);
        [| |exact Hrest|]; [congruence|congruence|].
      unfold thumb_run in *. simpl. rewrite Hs2, Hs'. repeat split; assumption.
Qed.

(** C3.  Take a key that is neither cached nor being generated, and any
    schedule in which requests [rs] for it (at least one) arrive, in any
    interleaving with the traffic for other keys, before its generation
    ends with [out].  Then exactly one generation is started for the key,
    and every one of the requests is answered [out]: the same bytes, or
    the same failure. *)
Theorem one_generation_for_all (t : Thumbs) (k : Key) (rs : list nat)
    (out : Result (list Byte.byte)) (evs : list ThumbEvent) :
  cache t !! k = None ->
  inflight t !! k = None ->
  rs <> [] ->
  List.filter (about k) evs = (((fun r => Arrives r k) <$> rs) ++ [Finishes k out])%list ->
  started k (thumb_run t evs) = S (started k t)
  /\ (forall r, r ∈ rs -> (r, out) ∈ delivered (thumb_run t evs))
  /\ inflight (thumb_run t evs) !! k = None
  /\ cache (thumb_run t evs) !! k
     = match out with Ok thumbnail => Some thumbnail | Err _ => None end.
Proof.
  intros Hc Hi Hrs. revert t Hc Hi.
  induction evs as [|ev evs IH]; intros t Hc Hi; simpl.
  - intros H. destruct rs; discriminate H.
  - destruct (about k ev) eqn:A.
    + destruct rs as [|r rs]; [contradiction|]. simpl. intros [= -> Hrest].
      assert (request r k t
              = {| cache := cache t; inflight := <[k := [r]]> (inflight t);
                   delivered := delivered t; generations := k :: generations t |}) as Hreq
        by (unfold request; rewrite Hc, Hi; reflexivity).
      destruct (joined_run k out evs (request r k t) [r] rs) as (Hs' & Hd' & Hi' & Hc');
        [rewrite Hreq; assumption
        |rewrite Hreq; apply lookup_insert_eq
        |exact Hrest|].
      unfold thumb_run in *. simpl.
      split.
      { rewrite Hs'. unfold started. rewrite Hreq. simpl.
        rewrite bool_decide_eq_true_2 by reflexivity. reflexivity. }
      split; [|split; assumption].
      intros r' Hr'. apply elem_of_cons in Hr'. destruct Hr' as [->|Hr'].
      * apply Hd'. left. apply list_elem_of_here.
      * apply Hd'. right. assumption.
    + intros Hrest.
      destruct (unrelated_step k t ev A) as (Hc' & Hi' & Hs').
      destruct (IH (thumb_step t ev)) as (Hs2 & Hd2 & Hi2 & Hc2);
        [congruence|congruence|exact Hrest|].
      unfold thumb_run in *. simpl. rewrite Hs2, Hs'. repeat split; assumption.
Qed.

Lemma one_generation_for_all_witness :
  let evs := [Arrives 1 jpg_key; Arrives 7 mp4_key; Arrives 2 jpg_key;
              Arrives 3 jpg_key; Finishes mp4_key (Err ThumbnailUnavailable);
              Finishes jpg_key (Ok [Byte.xff; Byte.xd8])] in
  started jpg_key (thumb_run no_thumbs evs) = S (started jpg_key no_thumbs)
  /\ (forall r, r ∈ [1; 2; 3]%nat ->
        (r, Ok [Byte.xff; Byte.xd8]) ∈ delivered (thumb_run no_thumbs evs))
  /\ inflight (thumb_run no_thumbs evs) !! jpg_key = None
  /\ cache (thumb_run no_thumbs evs) !! jpg_key = Some [Byte.xff; Byte.xd8].
Proof.
  apply (one_generation_for_all no_thumbs jpg_key [1; 2; 3]%nat
           (Ok [Byte.xff; Byte.xd8])).
  - reflexivity.
  - reflexivity.
  - discriminate.
  - vm_compute. reflexivity.
Defined.

End Backend.

(** ** Media URLs carry the session *)
Module MediaAuth.
Import JS Backend.

(** A text without the character [c]. *)
Fixpoint lacks (c : ascii) (t : string) : bool :=
  match t with
  | EmptyString => true
  | String a rest => negb (Ascii.eqb a c) && lacks c rest
  end.






Lemma append_assoc (a b c : string) : (a +:+ b) +:+ c = a +:+ b +:+ c.
Proof.
  induction a as [|x a IH]; [reflexivity|].
  change (String x ((a +:+ b) +:+ c) = String x (a +:+ b +:+ c)). f_equal. exact IH.
Qed.

Lemma lacks_app c a b : lacks c (a +:+ b) = lacks c a && lacks c b.
Proof. induction a as [|x a IH]; simpl; [reflexivity|]. rewrite IH. apply andb_assoc. Qed.

Lemma split_on_lacks c t : lacks c t = true -> split_on c t = [t].
Proof.
  induction t as [|a t IH]; simpl; [reflexivity|].
  intros H. apply andb_true_iff in H as [Ha Ht].
  apply negb_true_iff in Ha. rewrite Ha, (IH Ht). reflexivity.
Qed.

Lemma split_on_sep c a b :
  lacks c a = true -> split_on c (a +:+ String c b) = a :: split_on c b.
Proof.
  induction a as [|x a IH]; simpl.
  - intros _. rewrite Ascii.eqb_refl. reflexivity.
  - intros H. apply andb_true_iff in H as [Hx Ha].
    apply negb_true_iff in Hx. rewrite Hx, (IH Ha). reflexivity.
Qed.


(** What [encodeURIComponent] writes for one byte has no [&] in it. *)
Lemma encoded_byte_lacks_amp c :
  lacks "&" (if uri_unreserved c then String c EmptyString else percent c) = true.
Proof. destruct c as [[] [] [] [] [] [] [] []]; reflexivity. Qed.

Lemma encodeURIComponent_lacks_amp t : lacks "&" (encodeURIComponent t) = true.
Proof.
  induction t as [|c t IH]; simpl; [reflexivity|].
  rewrite lacks_app, encoded_byte_lacks_amp, IH. reflexivity.
Qed.






Example preview_url_of_a_file :
  Api.previewCompatUrl (Some "jwt") "/Goa 2024/a&b.jpg"
  = "/api/files/preview?path=%2FGoa%202024%2Fa%26b.jpg&compat=1&token=jwt".
Proof. vm_compute. reflexivity. Qed.

(** Without a stored token the URL carries the text "null". *)
Example preview_url_signed_out :
  Api.previewUrl None "a.jpg" = "/api/files/preview?path=a.jpg&token=null".
Proof. vm_compute. reflexivity. Qed.

End MediaAuth.

(** ** The session: the rest of [frontend/src/api.js], and
    [frontend/src/App.jsx] *)
Module Session.
Import JS Api.

(** The root component: its two [useState] cells.  [user] is the parsed
    user, [JNull] standing for [null] and [undefined] alike. *)
Record App := {
  user : Json;
  loading : bool;
}.

(** What the root component renders. *)
Inductive Screen := ShowSpinner | ShowDashboard | ShowLogin.

(** [loading ? spinner : user ? <Dashboard /> : <Login />]. *)
Definition screen (a : App) : Screen :=
  if loading a then ShowSpinner
  else if truthy (user a) then ShowDashboard else ShowLogin.

(** A stored user is never without a stored token. *)
Definition session_kept (w : World) : Prop :=
  is_Some (localStorage w !! "fs_user") -> is_Some (localStorage w !! "fs_token").

(** A server for the examples: it knows one password and one token. *)
Definition demo_server (r : Request) : Fetched :=
  if String.eqb (url r) "/api/auth/login" then
    match body (init r) with
    | Some (TextBody "admin:secret") =>
        Responded {| status := 200;
                     json := Some (JObj [("access_token", JStr "jwt.1");
                                         ("user", JObj [("username", JStr "admin")])]) |}
    | _ => Responded {| status := 400;
                        json := Some (JObj [("detail", JStr "Malformed login")]) |}
    end
  else if String.eqb (url r) "/api/auth/me" then
    match headers (init r) !! "Authorization" with
    | Some "Bearer jwt.1" =>
        Responded {| status := 200; json := Some (JObj [("username", JStr "admin")]) |}
    | _ => Responded {| status := 401; json := None |}
    end
  else if String.eqb (url r) "/api/stats?path=%2F" then
    Responded {| status := 500; json := None |}
  else NetworkError "Failed to fetch".

(** [JSON.stringify] and [JSON.parse] for the examples: credentials are
    written [name:password], everything else as a fixed text. *)
Definition demo_stringify (j : Json) : string :=
  match j with
  | JObj [("username", JStr u); ("password", JStr p)] => u +:+ ":" +:+ p
  | _ => "{}"
  end.

Definition demo_parse (t : string) : option Json :=
  if String.eqb t "{}" then Some (JObj [("username", JStr "admin")]) else None.

Definition nobody : World := {| localStorage := ∅; reloads := 0 |}.

Definition signed_in : World :=
  {| localStorage := <["fs_token" := "jwt.1"]> ∅; reloads := 0 |}.

Section Client.

Variable fetch : Request -> Fetched.
Variable JSON_stringify : Json -> string.
(** [JSON.parse]: [None] when it throws. *)
Variable JSON_parse : string -> option Json.

(** [getUser]: [JSON.parse(null)] is [null]; a text that does not parse
    is caught and gives [null]. *)
Definition getUser : M Json :=
  stored <- getItem "fs_user" ;;
  ret (match stored with
       | None => JNull
       | Some t => match JSON_parse t with Some j => j | None => JNull end
       end).

Definition logout : M unit := clearAuth.

Definition createUser (username password role : string) : M Json :=
  res <- req fetch "/auth/users"
             {| method := Some "POST"; headers := ∅;
                body := Some (TextBody (JSON_stringify
                          (JObj [("username", JStr username); ("password", JStr password);
                                 ("role", JStr role)]))) |} ;;
  res_json res.

Definition changePassword (current_password new_password : string) : M Json :=
  res <- req fetch "/auth/change-password"
             {| method := Some "POST"; headers := ∅;
                body := Some (TextBody (JSON_stringify
                          (JObj [("current_password", JStr current_password);
                                 ("new_password", JStr new_password)]))) |} ;;
  res_json res.

(** *** [App] *)

(** The first render and the mount effect, run to the end:
    [useState(api.getUser())], then, with a token, [api.getMe()] and its
    [then] / [catch] / [finally]. *)
Definition start : M App :=
  user0 <- getUser ;;
  token <- getToken ;;
  if truthy_str token then
    fun w =>
      match getMe fetch w with
      | (w1, Return u) =>
          (* setUser(u); api.setUser(u) *)
          (fst (setUser JSON_stringify (Some u) w1), Return {| user := u; loading := false |})
      | (w1, Throw _) =>
          (* api.clearAuth(); setUser(null) *)
          (fst (clearAuth w1), Return {| user := JNull; loading := false |})
      end
  else ret {| user := user0; loading := false |}.

(** [login] of the auth context: [api.login], then [setUser(data.user)]. *)
Definition App_login (username password : string) (a : App) : M App :=
  data <- login fetch JSON_stringify username password ;;
  ret {| user := match get "user" data with Some u => u | None => JNull end;
         loading := loading a |}.

(** [logout] of the auth context: [api.logout(); setUser(null)]. *)
Definition App_logout (a : App) : M App :=
  logout ;;; ret {| user := JNull; loading := loading a |}.


(** **** Answers other than 401 *)

Lemma ok_not_401 res : ok res = true -> status res <> 401.
Proof. unfold ok. intros H. apply andb_true_iff in H as [_ H]. lia. Qed.

Lemma req_ok w path opts res :
  fetch (req_request (localStorage w !! "fs_token") path opts) = Responded res ->
  ok res = true ->
  req fetch path opts w = (w, Return res).
Proof.
  intros Hfetch Hok. pose proof (ok_not_401 res Hok) as Hne.
  apply Z.eqb_neq in Hne.
  unfold req, bind, getToken, getItem, do_fetch.
  rewrite Hfetch. unfold ret at 1. rewrite Hne, Hok. reflexivity.
Qed.

Lemma req_not_ok w path opts res :
  fetch (req_request (localStorage w !! "fs_token") path opts) = Responded res ->
  status res <> 401 -> ok res = false ->
  exists message, req fetch path opts w = (w, Throw message).
Proof.
  intros Hfetch Hne Hok. apply Z.eqb_neq in Hne.
  unfold req, bind, getToken, getItem, do_fetch.
  rewrite Hfetch. unfold ret at 1. rewrite Hne, Hok. cbn [negb].
  destruct (json res) as [[]|]; eexists; reflexivity.
Qed.

Lemma req_network_error w path opts e :
  fetch (req_request (localStorage w !! "fs_token") path opts) = NetworkError e ->
  req fetch path opts w = (w, Throw e).
Proof.
  intros Hfetch. unfold req, bind, getToken, getItem, do_fetch.
  rewrite Hfetch. reflexivity.
Qed.

(** [req] either signs out (on 401) or leaves the browser state as it
    was. *)
Lemma req_world w path opts :
  fst (req fetch path opts w) = w \/ fst (req fetch path opts w) = signed_out w.
Proof.
  destruct (fetch (req_request (localStorage w !! "fs_token") path opts)) as [res|e] eqn:Hfetch.
  - destruct (Z.eq_dec (status res) 401) as [H401|Hne].
    + right. rewrite (req_401 fetch w path opts res Hfetch H401). reflexivity.
    + left. destruct (ok res) eqn:Hok.
      * rewrite (req_ok w path opts res Hfetch Hok). reflexivity.
      * destruct (req_not_ok w path opts res Hfetch Hne Hok) as [m ->]. reflexivity.
  - left. rewrite (req_network_error w path opts e Hfetch). reflexivity.
Qed.

Lemma signed_out_kept w : session_kept (signed_out w).
Proof.
  unfold session_kept. rewrite signed_out_no_user. intros [x Hx]. discriminate.
Qed.

Lemma req_kept w path opts : session_kept w -> session_kept (fst (req fetch path opts w)).
Proof.
  intros Hw. destruct (req_world w path opts) as [-> | ->]; [exact Hw|apply signed_out_kept].
Qed.

Lemma clearAuth_is w :
  clearAuth w = ({| localStorage := delete "fs_user" (delete "fs_token" (localStorage w));
                    reloads := reloads w |}, Return tt).
Proof. reflexivity. Qed.

Lemma clearAuth_kept w : session_kept (fst (clearAuth w)).
Proof.
  rewrite clearAuth_is. unfold session_kept; simpl.
  rewrite lookup_delete_eq. intros [x Hx]. discriminate.
Qed.

(** A call that goes through [req] and reads the body changes the browser
    state only as [req] does. *)
Lemma req_json_world w path opts :
  fst ((res <- req fetch path opts ;; res_json res) w) = fst (req fetch path opts w).
Proof.
  unfold bind. destruct (req fetch path opts w) as [w1 [res|e]]; [|reflexivity].
  unfold res_json. destruct (json res); reflexivity.
Qed.

Lemma login_world w username password :
  session_kept w ->
  session_kept (fst (login fetch JSON_stringify username password w)).
Proof.
  intros Hw. unfold login.
  pose proof (req_kept w "/auth/login" (login_opts JSON_stringify username password) Hw) as Hreq.
  unfold bind at 1.
  destruct (req fetch "/auth/login" (login_opts JSON_stringify username password) w)
    as [w1 [res|e]]; [|exact Hreq].
  simpl in Hreq. unfold res_json, bind at 1.
  destruct (json res) as [data|]; [|exact Hreq].
  unfold ret at 1.
  destruct data; try exact Hreq;
    unfold session_kept; simpl; intros _;
    rewrite lookup_insert_ne by discriminate;
    rewrite lookup_insert_eq; eexists; reflexivity.
Qed.

(** A call through [req] that resolves with the parsed body left the
    browser state alone, and the server had answered [ok] with that body. *)
Lemma req_json_return w path opts w1 j :
  (res <- req fetch path opts ;; res_json res) w = (w1, Return j) ->
  w1 = w
  /\ exists res, fetch (req_request (localStorage w !! "fs_token") path opts) = Responded res
                 /\ ok res = true /\ json res = Some j.
Proof.
  unfold bind at 1.
  destruct (fetch (req_request (localStorage w !! "fs_token") path opts)) as [res|e] eqn:Hfetch.
  - destruct (Z.eq_dec (status res) 401) as [H401|Hne].
    { rewrite (req_401 fetch w path opts res Hfetch H401). discriminate. }
    destruct (ok res) eqn:Hok.
    + rewrite (req_ok w path opts res Hfetch Hok). unfold res_json.
      destruct (json res) as [j'|] eqn:Hjson; [|discriminate].
      intros [= <- <-]. split; [reflexivity|]. exists res. auto.
    + destruct (req_not_ok w path opts res Hfetch Hne Hok) as [m ->]. discriminate.
  - rewrite (req_network_error w path opts e Hfetch). discriminate.
Qed.

Lemma truthy_token_stored w :
  truthy_str (localStorage w !! "fs_token") = true -> is_Some (localStorage w !! "fs_token").
Proof. destruct (localStorage w !! "fs_token"); [eexists; reflexivity|discriminate]. Qed.

Lemma start_unfold w :
  start w =
    if truthy_str (localStorage w !! "fs_token") then
      match getMe fetch w with
      | (w1, Return u) =>
          (fst (setUser JSON_stringify (Some u) w1), Return {| user := u; loading := false |})
      | (w1, Throw _) => (fst (clearAuth w1), Return {| user := JNull; loading := false |})
      end
    else (w, Return {| user := match snd (getUser w) with Return u => u | Throw _ => JNull end;
                       loading := false |}).
Proof.
  unfold start, getUser, getToken, getItem, bind, ret. cbv beta iota.
  destruct (truthy_str (localStorage w !! "fs_token")); reflexivity.
Qed.

(** Unless the server answers 401, [req] changes nothing in the browser:
    [localStorage] and the page stay as they were.  It resolves exactly
    when [fetch] delivered a response with [res.ok], and then with that
    very response; every other answer, and a network failure, is a
    rejection. *)
Theorem req_settles_without_side_effects (w : World) (path : string) (opts : Opts) :
  (forall res, fetch (req_request (localStorage w !! "fs_token") path opts) = Responded res ->
               status res <> 401) ->
  fst (req fetch path opts w) = w
  /\ (forall res, snd (req fetch path opts w) = Return res <->
        fetch (req_request (localStorage w !! "fs_token") path opts) = Responded res
        /\ ok res = true).
Proof.
  intros Hne.
  destruct (fetch (req_request (localStorage w !! "fs_token") path opts)) as [res|e] eqn:Hfetch.
  - specialize (Hne res eq_refl). destruct (ok res) eqn:Hok.
    + rewrite (req_ok w path opts res Hfetch Hok). split; [reflexivity|].
      intros res'. simpl. split.
      * intros [= <-]. split; [reflexivity|exact Hok].
      * intros [[= <-] _]. reflexivity.
    + destruct (req_not_ok w path opts res Hfetch Hne Hok) as [m ->]. split; [reflexivity|].
      intros res'. simpl. split; [discriminate|].
      intros [[= <-] Hok']. congruence.
  - rewrite (req_network_error w path opts e Hfetch). split; [reflexivity|].
    intros res'. simpl. split; [discriminate|]. intros [[=] _].
Qed.

(** A failed request (not 401, not [ok]) rejects with the server's own
    [detail] text whenever the body is a JSON object carrying a non-empty
    string there; a body that is not JSON, or an object without [detail],
    gives the message "Request failed". *)
Theorem req_surfaces_detail (w : World) (path : string) (opts : Opts) (res : Response) :
  fetch (req_request (localStorage w !! "fs_token") path opts) = Responded res ->
  status res <> 401 -> ok res = false ->
  (forall fields d,
      json res = Some (JObj fields) -> get "detail" (JObj fields) = Some (JStr d) -> d <> "" ->
      req fetch path opts w = (w, Throw d))
  /\ (forall fields,
      json res = Some (JObj fields) -> get "detail" (JObj fields) = None ->
      req fetch path opts w = (w, Throw "Request failed"))
  /\ (json res = None -> req fetch path opts w = (w, Throw "Request failed")).
Proof.
  intros Hfetch Hne Hok. apply Z.eqb_neq in Hne.
  assert (req fetch path opts w =
          (w, match (match json res with
                     | Some j => j
                     | None => JObj [("detail", JStr "Request failed")]
                     end) with
              | JNull => Throw (null_has_no "detail")
              | err => Throw (match get "detail" err with
                              | Some d => if truthy d then toString d else "Request failed"
                              | None => "Request failed"
                              end)
              end)) as Hreq.
  { unfold req, bind, getToken, getItem, do_fetch.
    rewrite Hfetch. unfold ret at 1. rewrite Hne, Hok. cbn [negb].
    destruct (json res) as [[]|]; reflexivity. }
  rewrite Hreq. repeat split.
  - intros fields d -> Hd Hnonempty. rewrite Hd. cbn [truthy toString].
    apply String.eqb_neq in Hnonempty. rewrite Hnonempty. reflexivity.
  - intros fields -> Hd. rewrite Hd. reflexivity.
  - intros ->. reflexivity.
Qed.

(** A login the server accepts with a JSON object holding a string
    [access_token] stores that token under [fs_token] and the serialized
    [user] under [fs_user], touches no other key, does not reload, and
    resolves with the parsed body.  From then on the header [req] builds
    is [Authorization: Bearer <token>]. *)
Theorem login_stores_session (w : World) (username password : string)
    (res : Response) (data : Json) (tok : string) :
  fetch (req_request (localStorage w !! "fs_token") "/auth/login"
           (login_opts JSON_stringify username password)) = Responded res ->
  ok res = true -> json res = Some data ->
  get "access_token" data = Some (JStr tok) ->
  exists w',
    login fetch JSON_stringify username password w = (w', Return data)
    /\ localStorage w' !! "fs_token" = Some tok
    /\ localStorage w' !! "fs_user"
         = Some (match get "user" data with
                 | Some u => JSON_stringify u
                 | None => "undefined"
                 end)
    /\ (forall key, key <> "fs_token" -> key <> "fs_user" ->
                    localStorage w' !! key = localStorage w !! key)
    /\ reloads w' = reloads w
    /\ (tok <> "" ->
        forall opts, req_headers (localStorage w' !! "fs_token") opts !! "Authorization"
                     = Some ("Bearer " +:+ tok)).
Proof.
  intros Hfetch Hok Hjson Htok.
  assert (login fetch JSON_stringify username password w =
          ({| localStorage :=
                <["fs_user" := match get "user" data with
                               | Some u => JSON_stringify u
                               | None => "undefined"
                               end]> (<["fs_token" := tok]> (localStorage w));
              reloads := reloads w |}, Return data)) as Hlogin.
  { unfold login. unfold bind at 1.
    rewrite (req_ok w _ _ res Hfetch Hok).
    unfold res_json. rewrite Hjson. unfold bind at 1, ret at 1.
    rewrite Htok. destruct data; try discriminate. reflexivity. }
  eexists. split; [exact Hlogin|]. cbn [localStorage reloads].
  assert (forall m : gmap string string,
             <["fs_user" := match get "user" data with
                            | Some u => JSON_stringify u
                            | None => "undefined"
                            end]> (<["fs_token" := tok]> m) !! "fs_token" = Some tok) as Hlook.
  { intros m. rewrite lookup_insert_ne by discriminate. apply lookup_insert_eq. }
  split; [apply Hlook|].
  split; [apply lookup_insert_eq|].
  split.
  { intros key H1 H2. rewrite !lookup_insert_ne by congruence. reflexivity. }
  split; [reflexivity|].
  intros Hnonempty opts. rewrite Hlook. unfold req_headers. cbn [truthy_str show_str].
  apply String.eqb_neq in Hnonempty. rewrite Hnonempty. cbn [negb].
  destruct (negb (is_FormData (body opts))).
  - rewrite lookup_insert_ne by discriminate. apply lookup_insert_eq.
  - apply lookup_insert_eq.
Qed.

(** Every operation of the client keeps the stored session well formed:
    whenever [fs_user] is present afterwards, so is [fs_token].  This holds
    for [req] on any path and with any options (hence for every call built
    on it), for [login], for [logout], and for the start of the
    application and the [login] and [logout] of its auth context. *)
Theorem session_stays_well_formed (w : World) :
  session_kept w ->
  (forall path opts, session_kept (fst (req fetch path opts w)))
  /\ (forall path opts, session_kept (fst ((res <- req fetch path opts ;; res_json res) w)))
  /\ (forall username password,
        session_kept (fst (login fetch JSON_stringify username password w)))
  /\ session_kept (fst (logout w))
  /\ session_kept (fst (start w))
  /\ (forall username password a,
        session_kept (fst (App_login username password a w)))
  /\ (forall a, session_kept (fst (App_logout a w))).
Proof.
  intros Hw.
  split; [intros; apply req_kept; exact Hw|].
  split; [intros; rewrite req_json_world; apply req_kept; exact Hw|].
  split; [intros; apply login_world; exact Hw|].
  split; [apply clearAuth_kept|].
  split.
  { rewrite start_unfold.
    destruct (truthy_str (localStorage w !! "fs_token")) eqn:Htok; [|exact Hw].
    destruct (getMe fetch w) as [w1 [u|e]] eqn:Hme; [|apply clearAuth_kept].
    apply req_json_return in Hme as [-> _].
    unfold session_kept. simpl. intros _.
    rewrite lookup_insert_ne by discriminate.
    apply truthy_token_stored, Htok. }
  split.
  { intros username password a. unfold App_login, bind at 1.
    pose proof (login_world w username password Hw) as Hlogin.
    destruct (login fetch JSON_stringify username password w) as [w1 [data|e]]; exact Hlogin. }
  intros a. apply clearAuth_kept.
Qed.

(** [bulkDownload] calls [fetch] itself, not [req]: whatever the answer,
    401 included, it neither touches the stored session nor reloads the
    page.  It resolves exactly when the answer is [ok] and its body could
    be read to the end, and then the body is saved under the name of the
    archive; an answer that is not [ok] gives the one message "Bulk
    download failed"; a body that cannot be read, and a network failure,
    reject with their own message. *)
Theorem bulkDownload_never_signs_out (res_blob : Response -> Outcome string)
    (today : string) (paths : list string) (w : World) :
  fst (bulkDownload fetch JSON_stringify res_blob today paths w) = w
  /\ (forall res,
        fetch (bulkDownload_request JSON_stringify (localStorage w !! "fs_token") paths)
          = Responded res ->
        snd (bulkDownload fetch JSON_stringify res_blob today paths w)
          = if ok res then
              match res_blob res with
              | Return blob =>
                  Return {| saved_as := "GhumaggerSnap-" +:+ today +:+ ".zip";
                            content := blob |}
              | Throw e => Throw e
              end
            else Throw "Bulk download failed")
  /\ (forall e,
        fetch (bulkDownload_request JSON_stringify (localStorage w !! "fs_token") paths)
          = NetworkError e ->
        snd (bulkDownload fetch JSON_stringify res_blob today paths w) = Throw e).
Proof.
  unfold bulkDownload, bind, getToken, getItem, do_fetch.
  destruct (fetch (bulkDownload_request JSON_stringify (localStorage w !! "fs_token") paths))
    as [res|e].
  - unfold ret, throw.
    split; [destruct (ok res); [destruct (res_blob res)|]; reflexivity|].
    split; [|discriminate].
    intros res' [= <-]. destruct (ok res); [destruct (res_blob res)|]; reflexivity.
  - split; [reflexivity|]. split; [discriminate|intros e' [= <-]; reflexivity].
Qed.

Lemma getMe_rejected w :
  (forall res, fetch (req_request (localStorage w !! "fs_token") "/auth/me" no_opts)
               = Responded res -> ok res = false \/ json res = None) ->
  exists e,
    getMe fetch w
    = (match fetch (req_request (localStorage w !! "fs_token") "/auth/me" no_opts) with
       | Responded res => if status res =? 401 then signed_out w else w
       | NetworkError _ => w
       end, Throw e).
Proof.
  intros Hrej. unfold getMe, bind at 1.
  destruct (fetch (req_request (localStorage w !! "fs_token") "/auth/me" no_opts))
    as [res|e] eqn:Hfetch.
  - destruct (Z.eqb_spec (status res) 401) as [H401|Hne].
    + rewrite (req_401 fetch w _ _ res Hfetch H401). eexists. reflexivity.
    + destruct (ok res) eqn:Hok.
      * rewrite (req_ok w _ _ res Hfetch Hok). unfold res_json.
        destruct (Hrej res eq_refl) as [Hno | ->]; [congruence|]. eexists. reflexivity.
      * destruct (req_not_ok w _ _ res Hfetch Hne Hok) as [m ->]. eexists. reflexivity.
  - rewrite (req_network_error w _ _ e Hfetch). eexists. reflexivity.
Qed.

(** With a token in [localStorage] the application asks [/auth/me] before
    it shows anything.  When the server answers [ok] with a body [u], [u]
    becomes the user and is written to [fs_user], nothing else changes,
    and the dashboard shows exactly when [u] is truthy.  When the call is
    rejected (an answer that is not [ok], a body that is not JSON, a
    network failure), both keys are removed, every other key stays, the
    page has reloaded only if the answer was a 401, and the login form
    shows.  So the dashboard is shown only for a user the server has just
    confirmed. *)
Theorem start_confirms_token (w : World) :
  truthy_str (localStorage w !! "fs_token") = true ->
  (forall res u,
      fetch (req_request (localStorage w !! "fs_token") "/auth/me" no_opts) = Responded res ->
      ok res = true -> json res = Some u ->
      start w = ({| localStorage := <["fs_user" := JSON_stringify u]> (localStorage w);
                    reloads := reloads w |},
                 Return {| user := u; loading := false |})
      /\ screen {| user := u; loading := false |}
         = if truthy u then ShowDashboard else ShowLogin)
  /\ ((forall res,
         fetch (req_request (localStorage w !! "fs_token") "/auth/me" no_opts) = Responded res ->
         ok res = false \/ json res = None) ->
      exists w',
        start w = (w', Return {| user := JNull; loading := false |})
        /\ localStorage w' !! "fs_token" = None
        /\ localStorage w' !! "fs_user" = None
        /\ (forall key, key <> "fs_token" -> key <> "fs_user" ->
                        localStorage w' !! key = localStorage w !! key)
        /\ reloads w'
           = match fetch (req_request (localStorage w !! "fs_token") "/auth/me" no_opts) with
             | Responded res => if status res =? 401 then S (reloads w) else reloads w
             | NetworkError _ => reloads w
             end
        /\ screen {| user := JNull; loading := false |} = ShowLogin)
  /\ (forall w' a,
        start w = (w', Return a) -> screen a = ShowDashboard ->
        exists res,
          fetch (req_request (localStorage w !! "fs_token") "/auth/me" no_opts) = Responded res
          /\ ok res = true /\ json res = Some (user a) /\ truthy (user a) = true).
Proof.
  intros Htok. split; [|split].
  - intros res u Hfetch Hok Hjson. split; [|reflexivity].
    rewrite start_unfold, Htok.
    assert (getMe fetch w = (w, Return u)) as ->.
    { unfold getMe, bind at 1. rewrite (req_ok w _ _ res Hfetch Hok).
      unfold res_json. rewrite Hjson. reflexivity. }
    reflexivity.
  - intros Hrej. rewrite start_unfold, Htok.
    destruct (getMe_rejected w Hrej) as [e ->].
    eexists. split; [reflexivity|]. rewrite clearAuth_is. cbn [fst localStorage reloads].
    split; [rewrite lookup_delete_ne by discriminate; apply lookup_delete_eq|].
    split; [apply lookup_delete_eq|].
    split.
    + intros key H1 H2. rewrite !lookup_delete_ne by congruence.
      destruct (fetch (req_request (localStorage w !! "fs_token") "/auth/me" no_opts))
        as [res|e']; [|reflexivity].
      destruct (status res =? 401); [|reflexivity].
      apply signed_out_other; assumption.
    + split; [|reflexivity].
      destruct (fetch (req_request (localStorage w !! "fs_token") "/auth/me" no_opts))
        as [res|e']; [|reflexivity].
      destruct (status res =? 401); reflexivity.
  - intros w' a. rewrite start_unfold, Htok.
    destruct (getMe fetch w) as [w1 [u|e]] eqn:Hme.
    + apply req_json_return in Hme as [-> (res & Hfetch & Hok & Hjson)].
      intros [= <- <-] Hscreen. exists res. cbn [user].
      split; [exact Hfetch|]. split; [exact Hok|]. split; [exact Hjson|].
      unfold screen in Hscreen. cbn [loading user] in Hscreen.
      destruct (truthy u); [reflexivity|discriminate].
    + intros [= <- <-]. discriminate.
Qed.

End Client.

(** Without a usable token the application starts without asking the
    server anything: whatever the network would answer, the browser state
    is untouched and the user is the one parsed from [fs_user] ([null]
    when there is none or it does not parse). *)
Theorem start_without_token_is_offline (fetch1 fetch2 : Request -> Fetched)
    (JSON_stringify : Json -> string) (JSON_parse : string -> option Json) (w : World) :
  truthy_str (localStorage w !! "fs_token") = false ->
  start fetch1 JSON_stringify JSON_parse w = start fetch2 JSON_stringify JSON_parse w
  /\ start fetch1 JSON_stringify JSON_parse w
     = (w, Return {| user := match localStorage w !! "fs_user" with
                             | Some t => match JSON_parse t with Some j => j | None => JNull end
                             | None => JNull
                             end;
                     loading := false |}).
Proof.
  intros Htok. rewrite !start_unfold, Htok. split; reflexivity.
Qed.

(** **** Examples *)

Lemma req_settles_without_side_effects_witness :
  fst (req demo_server "/stats?path=%2F" no_opts signed_in) = signed_in
  /\ (forall res, snd (req demo_server "/stats?path=%2F" no_opts signed_in) = Return res <->
        demo_server (req_request (localStorage signed_in !! "fs_token") "/stats?path=%2F" no_opts)
          = Responded res
        /\ ok res = true).
Proof.
  apply (req_settles_without_side_effects demo_server signed_in "/stats?path=%2F" no_opts).
  intros res [= <-]. simpl. lia.
Defined.

Lemma req_surfaces_detail_witness :
  (forall fields d,
      Some (JObj [("detail", JStr "Malformed login")]) = Some (JObj fields) ->
      get "detail" (JObj fields) = Some (JStr d) -> d <> "" ->
      req demo_server "/auth/login" no_opts nobody = (nobody, Throw d))
  /\ (forall fields,
      Some (JObj [("detail", JStr "Malformed login")]) = Some (JObj fields) ->
      get "detail" (JObj fields) = None ->
      req demo_server "/auth/login" no_opts nobody = (nobody, Throw "Request failed"))
  /\ (Some (JObj [("detail", JStr "Malformed login")]) = None ->
      req demo_server "/auth/login" no_opts nobody = (nobody, Throw "Request failed")).
Proof.
  apply (req_surfaces_detail demo_server nobody "/auth/login" no_opts
           {| status := 400; json := Some (JObj [("detail", JStr "Malformed login")]) |});
    [reflexivity | simpl; lia | reflexivity].
Defined.

Lemma login_stores_session_witness :
  exists w',
    login demo_server demo_stringify "admin" "secret" nobody
      = (w', Return (JObj [("access_token", JStr "jwt.1");
                           ("user", JObj [("username", JStr "admin")])]))
    /\ localStorage w' !! "fs_token" = Some "jwt.1"
    /\ localStorage w' !! "fs_user" = Some "{}"
    /\ (forall key, key <> "fs_token" -> key <> "fs_user" ->
                    localStorage w' !! key = localStorage nobody !! key)
    /\ reloads w' = reloads nobody
    /\ ("jwt.1" <> "" ->
        forall opts, req_headers (localStorage w' !! "fs_token") opts !! "Authorization"
                     = Some "Bearer jwt.1").
Proof.
  apply (login_stores_session demo_server demo_stringify nobody "admin" "secret"
           {| status := 200;
              json := Some (JObj [("access_token", JStr "jwt.1");
                                  ("user", JObj [("username", JStr "admin")])]) |}
           (JObj [("access_token", JStr "jwt.1");
                  ("user", JObj [("username", JStr "admin")])]) "jwt.1");
    reflexivity.
Defined.

Lemma session_stays_well_formed_witness :
  (forall path opts, session_kept (fst (req demo_server path opts nobody)))
  /\ (forall path opts,
        session_kept (fst ((res <- req demo_server path opts ;; res_json res) nobody)))
  /\ (forall username password,
        session_kept (fst (login demo_server demo_stringify username password nobody)))
  /\ session_kept (fst (logout nobody))
  /\ session_kept (fst (start demo_server demo_stringify demo_parse nobody))
  /\ (forall username password a,
        session_kept (fst (App_login demo_server demo_stringify username password a nobody)))
  /\ (forall a, session_kept (fst (App_logout a nobody))).
Proof.
  apply (session_stays_well_formed demo_server demo_stringify demo_parse nobody).
  unfold session_kept, nobody; simpl. rewrite lookup_empty. intros [x Hx]. discriminate.
Defined.

Lemma start_confirms_token_witness :
  (forall res u,
      demo_server (req_request (localStorage signed_in !! "fs_token") "/auth/me" no_opts)
        = Responded res ->
      ok res = true -> json res = Some u ->
      start demo_server demo_stringify demo_parse signed_in
        = ({| localStorage := <["fs_user" := demo_stringify u]> (localStorage signed_in);
              reloads := reloads signed_in |},
           Return {| user := u; loading := false |})
      /\ screen {| user := u; loading := false |}
         = if truthy u then ShowDashboard else ShowLogin)
  /\ ((forall res,
         demo_server (req_request (localStorage signed_in !! "fs_token") "/auth/me" no_opts)
           = Responded res ->
         ok res = false \/ json res = None) ->
      exists w',
        start demo_server demo_stringify demo_parse signed_in
          = (w', Return {| user := JNull; loading := false |})
        /\ localStorage w' !! "fs_token" = None
        /\ localStorage w' !! "fs_user" = None
        /\ (forall key, key <> "fs_token" -> key <> "fs_user" ->
                        localStorage w' !! key = localStorage signed_in !! key)
        /\ reloads w'
           = match demo_server (req_request (localStorage signed_in !! "fs_token")
                                  "/auth/me" no_opts) with
             | Responded res => if status res =? 401 then S (reloads signed_in)
                                else reloads signed_in
             | NetworkError _ => reloads signed_in
             end
        /\ screen {| user := JNull; loading := false |} = ShowLogin)
  /\ (forall w' a,
        start demo_server demo_stringify demo_parse signed_in = (w', Return a) ->
        screen a = ShowDashboard ->
        exists res,
          demo_server (req_request (localStorage signed_in !! "fs_token") "/auth/me" no_opts)
            = Responded res
          /\ ok res = true /\ json res = Some (user a) /\ truthy (user a) = true).
Proof.
  apply (start_confirms_token demo_server demo_stringify demo_parse signed_in). reflexivity.
Defined.

(** The two ways the start goes against that server: a token it knows,
    and one it does not. *)
Example start_with_a_good_and_a_stale_token :
  start demo_server demo_stringify demo_parse signed_in
    = ({| localStorage := <["fs_user" := "{}"]> (<["fs_token" := "jwt.1"]> ∅); reloads := 0 |},
       Return {| user := JObj [("username", JStr "admin")]; loading := false |})
  /\ start demo_server demo_stringify demo_parse stale_session
    = ({| localStorage := delete "fs_user" (delete "fs_token"
                            (delete "fs_user" (delete "fs_token" (localStorage stale_session))));
          reloads := 1 |},
       Return {| user := JNull; loading := false |}).
Proof. split; reflexivity. Qed.

Lemma start_without_token_is_offline_witness :
  start demo_server demo_stringify demo_parse nobody
    = start always_401 demo_stringify demo_parse nobody
  /\ start demo_server demo_stringify demo_parse nobody
     = (nobody, Return {| user := match localStorage nobody !! "fs_user" with
                                  | Some t => match demo_parse t with Some j => j | None => JNull end
                                  | None => JNull
                                  end;
                          loading := false |}).
Proof.
  apply (start_without_token_is_offline demo_server always_401 demo_stringify demo_parse nobody).
  reflexivity.
Defined.

End Session.

(** ** The media URLs as names of files: [frontend/src/api.js] *)
Module Urls.
Import JS Api.

(** The value of a hexadecimal digit, and the byte a [%XX] escape
    stands for. *)
Definition hex_code (a : ascii) : N :=
  match a with
  | "0" => 0 | "1" => 1 | "2" => 2 | "3" => 3 | "4" => 4
  | "5" => 5 | "6" => 6 | "7" => 7 | "8" => 8 | "9" => 9
  | "A" => 10 | "B" => 11 | "C" => 12 | "D" => 13 | "E" => 14 | "F" => 15
  | _ => 0
  end%char%N.

Definition unpercent (s : string) : ascii :=
  match s with
  | String _ (String h (String l _)) => ascii_of_N (16 * hex_code h + hex_code l)
  | _ => Ascii.zero
  end.

Lemma unpercent_percent c : unpercent (percent c) = c.
Proof. destruct c as [[] [] [] [] [] [] [] []]; reflexivity. Qed.

Lemma app_inv_head (a x y : string) : a +:+ x = a +:+ y -> x = y.
Proof.
  induction a as [|c a IH]; [trivial|].
  change (String c (a +:+ x) = String c (a +:+ y) -> x = y).
  intros [= H]. exact (IH H).
Qed.

(** Two texts without [c], each followed by [c], are equal when the
    whole is. *)
Lemma before_sep c a b r1 r2 :
  MediaAuth.lacks c a = true -> MediaAuth.lacks c b = true ->
  a +:+ String c r1 = b +:+ String c r2 -> a = b /\ r1 = r2.
Proof.
  revert b. induction a as [|x a IH]; intros [|y b] Ha Hb.
  - intros [= ->]. auto.
  - change (String c r1 = String y (b +:+ String c r2) -> "" = String y b /\ r1 = r2).
    intros [= <- _]. simpl in Hb. rewrite Ascii.eqb_refl in Hb. discriminate.
  - change (String x (a +:+ String c r1) = String c r2 -> String x a = "" /\ r1 = r2).
    intros [= -> _]. simpl in Ha. rewrite Ascii.eqb_refl in Ha. discriminate.
  - change (String x (a +:+ String c r1) = String y (b +:+ String c r2)
            -> String x a = String y b /\ r1 = r2).
    intros [= -> H]. simpl in Ha, Hb.
    apply andb_true_iff in Ha as [_ Ha]. apply andb_true_iff in Hb as [_ Hb].
    destruct (IH b Ha Hb H) as [-> ->]. auto.
Qed.

Lemma encodeURIComponent_inj s1 s2 :
  encodeURIComponent s1 = encodeURIComponent s2 -> s1 = s2.
Proof.
  revert s2. induction s1 as [|c1 r1 IH]; intros [|c2 r2]; cbn [encodeURIComponent].
  - reflexivity.
  - destruct (uri_unreserved c2); discriminate.
  - destruct (uri_unreserved c1); discriminate.
  - destruct (uri_unreserved c1) eqn:U1, (uri_unreserved c2) eqn:U2.
    + change (String c1 (encodeURIComponent r1) = String c2 (encodeURIComponent r2)
              -> String c1 r1 = String c2 r2).
      intros [= -> H]. f_equal. exact (IH _ H).
    + change (String c1 (encodeURIComponent r1)
              = String "%" (String (hex_digit (N_of_ascii c2 / 16))
                  (String (hex_digit (N_of_ascii c2 mod 16)) (encodeURIComponent r2)))
              -> String c1 r1 = String c2 r2).
      intros [= -> _]. discriminate.
    + change (String "%" (String (hex_digit (N_of_ascii c1 / 16))
                  (String (hex_digit (N_of_ascii c1 mod 16)) (encodeURIComponent r1)))
              = String c2 (encodeURIComponent r2)
              -> String c1 r1 = String c2 r2).
      intros [= <- _]. discriminate.
    + change (String "%" (String (hex_digit (N_of_ascii c1 / 16))
                  (String (hex_digit (N_of_ascii c1 mod 16)) (encodeURIComponent r1)))
              = String "%" (String (hex_digit (N_of_ascii c2 / 16))
                  (String (hex_digit (N_of_ascii c2 mod 16)) (encodeURIComponent r2)))
              -> String c1 r1 = String c2 r2).
      intros [= Hh Hl H].
      assert (percent c1 = percent c2) as Hp by (unfold percent; rewrite Hh, Hl; reflexivity).
      apply (f_equal unpercent) in Hp. rewrite !unpercent_percent in Hp. subst c2.
      f_equal. exact (IH _ H).
Qed.

(** A media URL names its file: whatever tokens were stored when they
    were built, two preview URLs (or two compat, thumbnail or download
    URLs) are equal only for the same path.  And the native and the compat
    source of a video are never the same URL, so a switch to compat always
    changes the [src] of the player. *)
Theorem media_url_names_its_file (t1 t2 : option string) (p1 p2 : string) :
  (previewUrl t1 p1 = previewUrl t2 p2 -> p1 = p2)
  /\ (previewCompatUrl t1 p1 = previewCompatUrl t2 p2 -> p1 = p2)
  /\ (thumbnailUrl t1 p1 = thumbnailUrl t2 p2 -> p1 = p2)
  /\ (downloadUrl t1 p1 = downloadUrl t2 p2 -> p1 = p2)
  /\ previewUrl t1 p1 <> previewCompatUrl t2 p2.
Proof.
  assert (forall pre r1 r2,
             pre +:+ encodeURIComponent p1 +:+ String "&" r1
             = pre +:+ encodeURIComponent p2 +:+ String "&" r2 -> p1 = p2 /\ r1 = r2) as Hkey.
  { intros pre r1 r2 H. apply app_inv_head in H.
    apply before_sep in H; try apply MediaAuth.encodeURIComponent_lacks_amp.
    destruct H as [H ->]. split; [exact (encodeURIComponent_inj _ _ H)|reflexivity]. }
  repeat split.
  - intros H. exact (proj1 (Hkey "/api/files/preview?path=" _ _ H)).
  - intros H. exact (proj1 (Hkey "/api/files/preview?path=" _ _ H)).
  - intros H. exact (proj1 (Hkey "/api/files/thumbnail?path=" _ _ H)).
  - intros H. exact (proj1 (Hkey "/api/files/download?path=" _ _ H)).
  - intros H. apply (Hkey "/api/files/preview?path=") in H as [_ H]. discriminate.
Qed.

End Urls.

(** ** The texts on a card and in a request: [fmtDate] and the extension
    label of [frontend/src/components/FileCard.jsx], the query of
    [getFiles] in [frontend/src/api.js] *)
Module Labels.
Import JS Api FileCard.

Section Clock.

(** [Date.now()], in milliseconds. *)
Variable now : Z.
(** [new Date(d).getTime()]: [None] is NaN, the time of an invalid date. *)
Variable getTime : string -> option Z.
(** [new Date(d).toLocaleDateString()]. *)
Variable toLocaleDateString : string -> string.

(** [fmtDate]: [d] is a date text of the listing, or nothing.  Time
    values are whole milliseconds; in the three branches that divide, [ms]
    is below 604800000, where [Math.floor] of the floating-point quotient
    is the integer quotient.  Every comparison with NaN is false, so an
    invalid date falls through to the last line. *)
Definition fmtDate (d : option string) : string :=
  match d with
  | None => ""
  | Some d =>
      if String.eqb d "" then ""
      else
        match getTime d with
        | None => toLocaleDateString d
        | Some t =>
            let ms := now - t in
            if ms <? 60000 then "Just now"
            else if ms <? 3600000 then dec (ms / 60000) +:+ "m ago"
            else if ms <? 86400000 then dec (ms / 3600000) +:+ "h ago"
            else if ms <? 604800000 then dec (ms / 86400000) +:+ "d ago"
            else toLocaleDateString d
        end
  end.

End Clock.

(** [name=value] as it stands in a serialized query. *)
Definition pair_text (kv : string * string) : string :=
  form_urlencode (fst kv) +:+ "=" +:+ form_urlencode (snd kv).

(** The parameters [getFiles] sets, in the order it sets them. *)
Definition getFiles_params (params : FileParams) : list (string * string) :=
  (set_if "path" (p_path params) ++ set_if "search" (p_search params)
     ++ set_if "file_type" (p_file_type params) ++ set_if "sort" (p_sort params))%list.

(** A clock and a calendar for the examples: dates are written as their
    time value. *)
Definition demo_getTime (d : string) : option Z :=
  if String.eqb d "1700000000000" then Some 1700000000000 else None.

(** A listing asked for with a search text that looks like a query. *)
Definition tricky_search : FileParams :=
  {| p_path := Some "/Goa 2024"; p_search := Some "a&sort=size";
     p_file_type := Some "all"; p_sort := Some "name" |}.

Definition photo : FileEntry :=
  {| name := "IMG_0042.final.JPG"; path := "/Goa2024/IMG_0042.final.JPG"; size := 1;
     modified_at := "1700000000000"; file_type := "image" |}.

(** **** The age of a file *)

(** For a valid date, [fmtDate] shows the whole minutes, hours or days
    that have passed, never a zero and never a count that belongs to the
    next unit: minutes from 1 to 59, hours from 1 to 23, days from 1 to 6.
    Anything younger than a minute, a date in the future included, is
    "Just now"; from seven days on the date itself is shown. *)
Theorem fmtDate_shows_age (now : Z) (getTime : string -> option Z)
    (toLocaleDateString : string -> string) (d : string) (t : Z) :
  d <> "" -> getTime d = Some t ->
  (now - t < 60000 /\ fmtDate now getTime toLocaleDateString (Some d) = "Just now")
  \/ (exists n, 1 <= n <= 59 /\ 60000 * n <= now - t < 60000 * (n + 1)
                /\ fmtDate now getTime toLocaleDateString (Some d) = dec n +:+ "m ago")
  \/ (exists n, 1 <= n <= 23 /\ 3600000 * n <= now - t < 3600000 * (n + 1)
                /\ fmtDate now getTime toLocaleDateString (Some d) = dec n +:+ "h ago")
  \/ (exists n, 1 <= n <= 6 /\ 86400000 * n <= now - t < 86400000 * (n + 1)
                /\ fmtDate now getTime toLocaleDateString (Some d) = dec n +:+ "d ago")
  \/ (604800000 <= now - t
      /\ fmtDate now getTime toLocaleDateString (Some d) = toLocaleDateString d).
Proof.
  intros Hd Ht. unfold fmtDate. apply String.eqb_neq in Hd. rewrite Hd, Ht.
  cbv zeta.
  destruct (Z.ltb_spec (now - t) 60000) as [H1|H1]; [left; split; [lia|reflexivity]|].
  right.
  destruct (Z.ltb_spec (now - t) 3600000) as [H2|H2].
  { left. exists ((now - t) / 60000). split; [|split; [|reflexivity]].
    - pose proof (Z.div_le_lower_bound (now - t) 60000 1 ltac:(lia) ltac:(lia)).
      pose proof (Z.div_lt_upper_bound (now - t) 60000 60 ltac:(lia) ltac:(lia)). lia.
    - pose proof (Z.mul_div_le (now - t) 60000 ltac:(lia)).
      pose proof (Z.mul_succ_div_gt (now - t) 60000 ltac:(lia)). lia. }
  right.
  destruct (Z.ltb_spec (now - t) 86400000) as [H3|H3].
  { left. exists ((now - t) / 3600000). split; [|split; [|reflexivity]].
    - pose proof (Z.div_le_lower_bound (now - t) 3600000 1 ltac:(lia) ltac:(lia)).
      pose proof (Z.div_lt_upper_bound (now - t) 3600000 24 ltac:(lia) ltac:(lia)). lia.
    - pose proof (Z.mul_div_le (now - t) 3600000 ltac:(lia)).
      pose proof (Z.mul_succ_div_gt (now - t) 3600000 ltac:(lia)). lia. }
  right.
  destruct (Z.ltb_spec (now - t) 604800000) as [H4|H4].
  { left. exists ((now - t) / 86400000). split; [|split; [|reflexivity]].
    - pose proof (Z.div_le_lower_bound (now - t) 86400000 1 ltac:(lia) ltac:(lia)).
      pose proof (Z.div_lt_upper_bound (now - t) 86400000 7 ltac:(lia) ltac:(lia)). lia.
    - pose proof (Z.mul_div_le (now - t) 86400000 ltac:(lia)).
      pose proof (Z.mul_succ_div_gt (now - t) 86400000 ltac:(lia)). lia. }
  right. split; [lia|reflexivity].
Qed.

Lemma fmtDate_shows_age_witness :
  (1700000300000 - 1700000000000 < 60000
   /\ fmtDate 1700000300000 demo_getTime id (Some "1700000000000") = "Just now")
  \/ (exists n, 1 <= n <= 59
                /\ 60000 * n <= 1700000300000 - 1700000000000 < 60000 * (n + 1)
                /\ fmtDate 1700000300000 demo_getTime id (Some "1700000000000")
                   = dec n +:+ "m ago")
  \/ (exists n, 1 <= n <= 23
                /\ 3600000 * n <= 1700000300000 - 1700000000000 < 3600000 * (n + 1)
                /\ fmtDate 1700000300000 demo_getTime id (Some "1700000000000")
                   = dec n +:+ "h ago")
  \/ (exists n, 1 <= n <= 6
                /\ 86400000 * n <= 1700000300000 - 1700000000000 < 86400000 * (n + 1)
                /\ fmtDate 1700000300000 demo_getTime id (Some "1700000000000")
                   = dec n +:+ "d ago")
  \/ (604800000 <= 1700000300000 - 1700000000000
      /\ fmtDate 1700000300000 demo_getTime id (Some "1700000000000") = id "1700000000000").
Proof.
  apply (fmtDate_shows_age 1700000300000 demo_getTime id "1700000000000" 1700000000000);
    [discriminate | reflexivity].
Defined.

Example fmtDate_five_minutes :
  fmtDate 1700000300000 demo_getTime id (Some "1700000000000") = "5m ago".
Proof. reflexivity. Qed.

(** **** The extension label *)

Lemma split_on_shape c s :
  (split_on c s = [s] /\ MediaAuth.lacks c s = true)
  \/ (exists stem h t,
         split_on c s = h :: t /\ t <> []
         /\ s = stem +:+ String c (List.last (h :: t) "")
         /\ MediaAuth.lacks c (List.last (h :: t) "") = true).
Proof.
  induction s as [|a s IH]; [left; split; reflexivity|].
  cbn [split_on MediaAuth.lacks]. destruct (Ascii.eqb_spec a c) as [->|Hne].
  - right. destruct IH as [[Hs Hl] | (stem & h & t & Hs & Ht & Heq & Hl)].
    + exists "", "", [s]. rewrite Hs. repeat split; [discriminate|exact Hl].
    + exists (String c stem), "", (h :: t). rewrite Hs.
      split; [reflexivity|]. split; [discriminate|].
      change (List.last ("" :: h :: t) "") with (List.last (h :: t) "").
      split; [|exact Hl].
      change (String c s = String c (stem +:+ String c (List.last (h :: t) ""))).
      f_equal. exact Heq.
  - destruct IH as [[Hs Hl] | (stem & h & t & Hs & Ht & Heq & Hl)].
    + left. rewrite Hs, Hl. split; reflexivity.
    + right. exists (String a stem), (String a h), t. rewrite Hs.
      split; [reflexivity|]. split; [exact Ht|].
      assert (List.last (String a h :: t) "" = List.last (h :: t) "") as ->.
      { destruct t; [contradiction|reflexivity]. }
      split; [|exact Hl].
      change (String a s = String a (stem +:+ String c (List.last (h :: t) ""))).
      f_equal. exact Heq.
Qed.

(** The label under the icon of a card is what follows the last dot of
    the file name: it holds no dot itself, and the name is some stem, a
    dot, and the label.  A name without any dot is shown whole. *)
Theorem extension_follows_last_dot (file : FileEntry) :
  MediaAuth.lacks "." (extension file) = true
  /\ ((MediaAuth.lacks "." (name file) = true /\ extension file = name file)
      \/ exists stem, name file = stem +:+ "." +:+ extension file).
Proof.
  unfold extension.
  destruct (split_on_shape "." (name file)) as [[Hs Hl] | (stem & h & t & Hs & Ht & Heq & Hl)].
  - rewrite Hs. cbn [List.last]. split; [exact Hl|]. left. split; [exact Hl|reflexivity].
  - rewrite Hs. split; [exact Hl|]. right. exists stem. exact Heq.
Qed.

Example extension_of_photo : extension photo = "JPG".
Proof. reflexivity. Qed.

(** **** The query of a listing *)

Lemma form_byte_lacks c :
  MediaAuth.lacks "&" (if is_alnum c || one_of "*-._" c then String c EmptyString
                       else if Ascii.eqb c " " then "+" else percent c)
  && MediaAuth.lacks "=" (if is_alnum c || one_of "*-._" c then String c EmptyString
                          else if Ascii.eqb c " " then "+" else percent c) = true.
Proof. destruct c as [[] [] [] [] [] [] [] []]; reflexivity. Qed.

Lemma form_urlencode_lacks s :
  MediaAuth.lacks "&" (form_urlencode s) = true /\ MediaAuth.lacks "=" (form_urlencode s) = true.
Proof.
  induction s as [|c s [IH1 IH2]]; [split; reflexivity|].
  cbn [form_urlencode]. rewrite !MediaAuth.lacks_app, IH1, IH2, !andb_true_r.
  apply andb_true_iff, form_byte_lacks.
Qed.

Lemma pair_text_lacks kv : MediaAuth.lacks "&" (pair_text kv) = true.
Proof.
  unfold pair_text. rewrite !MediaAuth.lacks_app.
  rewrite (proj1 (form_urlencode_lacks (fst kv))), (proj1 (form_urlencode_lacks (snd kv))).
  reflexivity.
Qed.

Lemma URLSearchParams_split ps :
  ps <> [] -> split_on "&" (URLSearchParams_toString ps) = pair_text <$> ps.
Proof.
  induction ps as [|[k v] [|kv' rest] IH]; intros Hne; [contradiction| |].
  - cbn [URLSearchParams_toString fmap list_fmap].
    apply (MediaAuth.split_on_lacks "&" (pair_text (k, v))), pair_text_lacks.
  - change (URLSearchParams_toString ((k, v) :: kv' :: rest))
      with (form_urlencode k +:+ "=" +:+ form_urlencode v
              +:+ String "&" (URLSearchParams_toString (kv' :: rest))).
    rewrite <- (MediaAuth.append_assoc "=" (form_urlencode v)).
    rewrite <- (MediaAuth.append_assoc (form_urlencode k)).
    rewrite (MediaAuth.split_on_sep "&" (pair_text (k, v))) by apply pair_text_lacks.
    rewrite IH by discriminate. reflexivity.
Qed.

Lemma set_if_cases name value :
  set_if name value = [] \/ exists x, set_if name value = [(name, x)].
Proof.
  unfold set_if. destruct value as [x|]; [|left; reflexivity].
  destruct (truthy_str (Some x)); [right; exists x|left]; reflexivity.
Qed.

Lemma pair_text_splits name x :
  name ∈ ["path"; "search"; "file_type"; "sort"] ->
  split_on "=" (pair_text (name, x)) = [name; form_urlencode x].
Proof.
  intros Hin.
  assert (pair_text (name, x) = name +:+ String "=" (form_urlencode x)
          /\ MediaAuth.lacks "=" name = true) as [-> Hl].
  { repeat (apply elem_of_cons in Hin as [->|Hin]; [split; reflexivity|]).
    apply elem_of_nil in Hin. contradiction. }
  rewrite (MediaAuth.split_on_sep "=" name _ Hl).
  rewrite (MediaAuth.split_on_lacks "=" _ (proj2 (form_urlencode_lacks x))). reflexivity.
Qed.

Example query_of_a_tricky_search :
  split_on "&" (getFiles_query tricky_search)
    = ["path=%2FGoa+2024"; "search=a%26sort%3Dsize"; "file_type=all"; "sort=name"].
Proof. reflexivity. Qed.

(** Whatever the path and the search text are, the query of a listing
    splits at [&] into exactly the parameters [getFiles] set, one
    [name=value] each, in the order path, search, file_type, sort and with
    no name twice; a value cannot add a parameter or change a name,
    because its encoding holds neither [&] nor [=]. *)
Theorem search_text_adds_no_parameter (params : FileParams) :
  getFiles_params params <> [] ->
  split_on "&" (getFiles_query params) = pair_text <$> getFiles_params params
  /\ Forall (fun kv => split_on "=" (pair_text kv) = [fst kv; form_urlencode (snd kv)])
            (getFiles_params params)
  /\ sublist (fst <$> getFiles_params params) ["path"; "search"; "file_type"; "sort"].
Proof.
  intros Hne. split; [exact (URLSearchParams_split _ Hne)|].
  clear Hne. unfold getFiles_params.
  destruct (set_if_cases "path" (p_path params)) as [-> | [x1 ->]];
    destruct (set_if_cases "search" (p_search params)) as [-> | [x2 ->]];
    destruct (set_if_cases "file_type" (p_file_type params)) as [-> | [x3 ->]];
    destruct (set_if_cases "sort" (p_sort params)) as [-> | [x4 ->]];
    (split;
     [repeat constructor; apply pair_text_splits; set_solver
     |cbn [app fmap list_fmap fst];
      repeat first [apply sublist_nil | apply sublist_skip | apply sublist_cons]]).
Qed.

Lemma search_text_adds_no_parameter_witness :
  split_on "&" (getFiles_query tricky_search) = pair_text <$> getFiles_params tricky_search
  /\ Forall (fun kv => split_on "=" (pair_text kv) = [fst kv; form_urlencode (snd kv)])
            (getFiles_params tricky_search)
  /\ sublist (fst <$> getFiles_params tricky_search) ["path"; "search"; "file_type"; "sort"].
Proof. apply (search_text_adds_no_parameter tricky_search). discriminate. Defined.

End Labels.

(** ** Moving through the listing: the navigation, selection, preview and
    keyboard handlers of [frontend/src/components/Dashboard.jsx] *)
Module Browse.
Import JS FileCard Dashboard.
Set Warnings "-clear-no-such-hyp".

(** *** Navigation *)

(** [arr.join(sep)]. *)
Fixpoint join (sep : string) (arr : list string) : string :=
  match arr with
  | [] => ""
  | [x] => x
  | x :: rest => x +:+ sep +:+ join sep rest
  end.

Record Crumb := {
  crumb_name : string;
  crumb_path : string;
}.

(** [currentPath.split('/').filter(Boolean)]. *)
Definition parts (currentPath : string) : list string :=
  List.filter (fun part => negb (String.eqb part "")) (split_on "/" currentPath).

Definition breadcrumbs (currentPath : string) : list Crumb :=
  if String.eqb currentPath "/" then [{| crumb_name := "Home"; crumb_path := "/" |}]
  else
    {| crumb_name := "Home"; crumb_path := "/" |}
      :: (let arr := parts currentPath in
          imap (fun i part => {| crumb_name := part;
                                 crumb_path := "/" +:+ join "/" (take (S i) arr) |}) arr).

(** [currentPath.split('/').slice(0, -1).join('/') || '/']. *)
Definition parent (currentPath : string) : string :=
  let p := join "/" (removelast (split_on "/" currentPath)) in
  if String.eqb p "" then "/" else p.

(** *** The component

    The hooks of [Dashboard] beyond the listing: the [lastIdx] ref and
    the previewed file. *)
Record Browser := {
  dash : State;
  lastIdx : option nat;
  previewFile : option FileEntry;
}.

Definition with_selected (s : gset string) (d : State) : State :=
  {| currentPath := currentPath d; folders := folders d; files := files d;
     loading := loading d; search := search d; fileType := fileType d;
     sort := sort d; view := view d; selected := s; cards := cards d |}.

Definition select (s : gset string) (b : Browser) : Browser :=
  {| dash := with_selected s (dash b); lastIdx := lastIdx b; previewFile := previewFile b |}.

(** [navigateTo]: [setSearch(''); setCurrentPath(path)]. *)
Definition navigateTo (to : string) (b : Browser) : Browser :=
  let d := dash b in
  {| dash := {| currentPath := to; folders := folders d; files := files d;
                loading := loading d; search := ""; fileType := fileType d;
                sort := sort d; view := view d; selected := selected d;
                cards := cards d |};
     lastIdx := lastIdx b; previewFile := previewFile b |}.

(** The effect on [currentPath]: [setSelected(new Set()); lastIdx.current
    = null]. *)
Definition on_path_change (b : Browser) : Browser :=
  {| dash := with_selected ∅ (dash b); lastIdx := None; previewFile := previewFile b |}.

(** The effect on [loadFiles], up to its [await]: [setLoading(true)].
    The listing arrives later ([reload]). *)
Definition on_query_change (b : Browser) : Browser :=
  let d := dash b in
  {| dash := {| currentPath := currentPath d; folders := folders d; files := files d;
                loading := true; search := search d; fileType := fileType d;
                sort := sort d; view := view d; selected := selected d;
                cards := cards d |};
     lastIdx := lastIdx b; previewFile := previewFile b |}.

(** A navigation with the effects React runs after it.  [loadFiles] is
    rebuilt when [currentPath] or [search] has changed, and its effect
    then starts a load; the selection is cleared only when [currentPath]
    has changed.  (The statistics bar, which is refreshed by a third
    effect, is not part of this state.) *)
Definition navigate (to : string) (b : Browser) : Browser :=
  let path_changed := negb (String.eqb to (currentPath (dash b))) in
  let query_changed := path_changed || negb (String.eqb (search (dash b)) "") in
  let b1 := navigateTo to b in
  let b2 := if query_changed then on_query_change b1 else b1 in
  if path_changed then on_path_change b2 else b2.

(** *** Selection *)

(** The modifier keys of a click or a key press. *)
Record Modifiers := {
  shiftKey : bool;
  ctrlKey : bool;
  metaKey : bool;
}.

Definition plain : Modifiers := {| shiftKey := false; ctrlKey := false; metaKey := false |}.
Definition with_ctrl : Modifiers := {| shiftKey := false; ctrlKey := true; metaKey := false |}.
Definition with_shift : Modifiers := {| shiftKey := true; ctrlKey := false; metaKey := false |}.

(** [for (let i = a; i <= b; i++) s.add(files[i].path)], for [n] more
    rounds from [i]: [None] is the TypeError when [files[i]] is
    undefined. *)
Fixpoint add_range (files : list FileEntry) (s : gset string) (i n : nat)
    : option (gset string) :=
  match n with
  | O => Some s
  | S n' =>
      match files !! i with
      | Some f => add_range files (s ∪ {[path f]}) (S i) n'
      | None => None
      end
  end.

(** [handleSelect]: [None] when it throws, and then neither [lastIdx] nor
    the selection is written. *)
Definition handleSelect (filePath : string) (index : nat) (e : Modifiers) (b : Browser)
    : option Browser :=
  let s := selected (dash b) in
  let s' :=
    match shiftKey e, lastIdx b with
    | true, Some l =>
        let a := Nat.min l index in
        let z := Nat.max l index in
        add_range (files (dash b)) s a (S z - a)
    | _, _ =>
        if ctrlKey e || metaKey e then
          Some (if bool_decide (filePath ∈ s) then s ∖ {[filePath]} else s ∪ {[filePath]})
        else
          Some (if bool_decide (filePath ∈ s) && (base.size s =? 1)%nat then ∅ else {[filePath]})
    end in
  match s' with
  | Some s' => Some {| dash := with_selected s' (dash b); lastIdx := Some index;
                       previewFile := previewFile b |}
  | None => None
  end.

(** [onSelect] of the card of the file at [index], as [Dashboard] wires
    it: [handleSelect(f.path, i, e)]. *)
Definition click_file (index : nat) (e : Modifiers) (b : Browser) : option Browser :=
  match files (dash b) !! index with
  | Some f => handleSelect (path f) index e b
  | None => Some b
  end.

Definition listed (b : Browser) : list string := path <$> files (dash b).

Definition selectAll (b : Browser) : Browser :=
  if (base.size (selected (dash b)) =? length (files (dash b)))%nat then select ∅ b
  else select (list_to_set (listed b)) b.

(** *** Preview nav *)

(** [arr.findIndex(p)]. *)
Fixpoint findIndex_from (p : FileEntry -> bool) (arr : list FileEntry) (i : Z) : Z :=
  match arr with
  | [] => -1
  | f :: rest => if p f then i else findIndex_from p rest (i + 1)
  end.

Definition findIndex (p : FileEntry -> bool) (arr : list FileEntry) : Z :=
  findIndex_from p arr 0.

Definition previewIdx (b : Browser) : Z :=
  match previewFile b with
  | Some pf => findIndex (fun f => String.eqb (path f) (path pf)) (files (dash b))
  | None => -1
  end.

Definition setPreviewFile (f : option FileEntry) (b : Browser) : Browser :=
  {| dash := dash b; lastIdx := lastIdx b; previewFile := f |}.

Definition prevPreview (b : Browser) : Browser :=
  if 0 <? previewIdx b then setPreviewFile (files (dash b) !! Z.to_nat (previewIdx b - 1)) b
  else b.

Definition nextPreview (b : Browser) : Browser :=
  if previewIdx b <? Z.of_nat (length (files (dash b))) - 1
  then setPreviewFile (files (dash b) !! Z.to_nat (previewIdx b + 1)) b
  else b.

Definition hasPrev (b : Browser) : bool := 0 <? previewIdx b.
Definition hasNext (b : Browser) : bool :=
  previewIdx b <? Z.of_nat (length (files (dash b))) - 1.

(** *** Keyboard shortcuts *)
Record KeyEvent := {
  tagName : string;
  key : string;
  mods : Modifiers;
}.

(** The [keydown] handler on [window], with the effect on [currentPath]
    that follows a navigation. *)
Definition handler (e : KeyEvent) (b : Browser) : Browser :=
  if String.eqb (tagName e) "INPUT" || String.eqb (tagName e) "TEXTAREA" then b
  else
    let b1 := if (ctrlKey (mods e) || metaKey (mods e)) && String.eqb (key e) "a"
              then selectAll b else b in
    let b2 := if String.eqb (key e) "Escape" then select ∅ b1 else b1 in
    if String.eqb (key e) "Backspace" && negb (String.eqb (currentPath (dash b)) "/")
    then navigate (parent (currentPath (dash b))) b2
    else b2.

(** The [keydown] handler of an open preview ([handleKey] of
    [FilePreview]), on the component that owns the previewed file. *)
Definition handleKey (k : string) (b : Browser) : Browser :=
  let b1 := if String.eqb k "Escape" then setPreviewFile None b else b in
  let b2 := if String.eqb k "ArrowLeft" then prevPreview b1 else b1 in
  if String.eqb k "ArrowRight" then nextPreview b2 else b2.

(** One key press while the dashboard is shown.  The listener of an open
    preview sits on [document] and runs first, the dashboard's sits on
    [window]; neither stops the event. *)
Definition keydown (e : KeyEvent) (b : Browser) : Browser :=
  handler e (match previewFile b with Some _ => handleKey (key e) b | None => b end).

(** A listing arriving ([loadFiles] run to its end) while the other hooks
    keep their values. *)
Definition reload (fetch : Api.Request -> Api.Fetched) (b : Browser) : Api.M Browser :=
  fun w =>
    match loadFiles fetch (dash b) w with
    | (w', Api.Return d) =>
        (w', Api.Return {| dash := d; lastIdx := lastIdx b; previewFile := previewFile b |})
    | (w', Api.Throw e) => (w', Api.Throw e)
    end.

(** A folder with three photographs, for the examples. *)
Definition palms : FileEntry :=
  {| name := "palms.jpg"; path := "/Goa2024/palms.jpg"; size := 1024;
     modified_at := "2024-01-06T09:00:00"; file_type := "image" |}.

Definition photo_elsewhere : FileEntry :=
  {| name := "fort.jpg"; path := "/Goa2024/day1/fort.jpg"; size := 512;
     modified_at := "2024-01-05T12:00:00"; file_type := "image" |}.

Definition album : Browser :=
  {| dash := {| currentPath := "/Goa2024"; folders := []; files := [beach; palms; sunset];
                loading := false; search := ""; fileType := "all"; sort := "name";
                view := grid; selected := ∅; cards := ∅ |};
     lastIdx := None; previewFile := None |}.

(** **** Breadcrumbs *)

Lemma split_join segs :
  segs <> [] -> Forall (fun s => MediaAuth.lacks "/" s = true) segs ->
  split_on "/" (join "/" segs) = segs.
Proof.
  induction segs as [|x [|y rest] IH]; intros Hne Hall; [contradiction| |].
  - apply MediaAuth.split_on_lacks. exact (Forall_inv Hall).
  - change (join "/" (x :: y :: rest)) with (x +:+ String "/" (join "/" (y :: rest))).
    rewrite (MediaAuth.split_on_sep "/" x _ (Forall_inv Hall)).
    rewrite IH; [reflexivity|discriminate|exact (Forall_inv_tail Hall)].
Qed.

Lemma split_absolute segs :
  segs <> [] -> Forall (fun s => MediaAuth.lacks "/" s = true) segs ->
  split_on "/" ("/" +:+ join "/" segs) = "" :: segs.
Proof.
  intros Hne Hall.
  change ("/" +:+ join "/" segs) with ("" +:+ String "/" (join "/" segs)).
  rewrite (MediaAuth.split_on_sep "/" "" _ eq_refl), (split_join segs Hne Hall). reflexivity.
Qed.

Lemma filter_keeps_all {A} (f : A -> bool) (l : list A) :
  Forall (fun x => f x = true) l -> List.filter f l = l.
Proof.
  induction 1 as [|x l Hx _ IH]; [reflexivity|].
  cbn [List.filter]. rewrite Hx, IH. reflexivity.
Qed.

Lemma clean_lacks segs :
  Forall (fun s => s <> "" /\ MediaAuth.lacks "/" s = true) segs ->
  Forall (fun s => MediaAuth.lacks "/" s = true) segs.
Proof. intros Hall. apply (Forall_impl _ _ _ Hall). intros s [_ H]. exact H. Qed.

Lemma parts_absolute segs :
  segs <> [] -> Forall (fun s => s <> "" /\ MediaAuth.lacks "/" s = true) segs ->
  parts ("/" +:+ join "/" segs) = segs.
Proof.
  intros Hne Hall. unfold parts. rewrite (split_absolute segs Hne (clean_lacks segs Hall)).
  cbn [List.filter String.eqb negb]. apply filter_keeps_all.
  apply (Forall_impl _ _ _ Hall). intros s [Hs _].
  apply String.eqb_neq in Hs. rewrite Hs. reflexivity.
Qed.

Lemma absolute_not_root segs :
  segs <> [] -> Forall (fun s => s <> "" /\ MediaAuth.lacks "/" s = true) segs ->
  String.eqb ("/" +:+ join "/" segs) "/" = false.
Proof.
  intros Hne Hall. destruct segs as [|[|c x] rest]; [contradiction| |].
  - destruct (Forall_inv Hall) as [H _]. contradiction.
  - destruct rest; reflexivity.
Qed.

Lemma breadcrumbs_absolute segs :
  Forall (fun s => s <> "" /\ MediaAuth.lacks "/" s = true) segs ->
  breadcrumbs ("/" +:+ join "/" segs)
  = {| crumb_name := "Home"; crumb_path := "/" |}
      :: imap (fun i part => {| crumb_name := part;
                                crumb_path := "/" +:+ join "/" (take (S i) segs) |}) segs.
Proof.
  intros Hall. destruct (decide (segs = [])) as [->|Hne]; [reflexivity|].
  unfold breadcrumbs. rewrite (absolute_not_root segs Hne Hall).
  cbv zeta. rewrite (parts_absolute segs Hne Hall). reflexivity.
Qed.

Lemma parent_absolute segs :
  segs <> [] -> Forall (fun s => s <> "" /\ MediaAuth.lacks "/" s = true) segs ->
  parent ("/" +:+ join "/" segs) = "/" +:+ join "/" (removelast segs).
Proof.
  intros Hne Hall. unfold parent.
  rewrite (split_absolute segs Hne (clean_lacks segs Hall)).
  destruct segs as [|x rest]; [contradiction|].
  change (removelast ("" :: x :: rest)) with ("" :: removelast (x :: rest)).
  destruct (removelast (x :: rest)) as [|y more]; reflexivity.
Qed.

(** The breadcrumb trail retraces the current path.  For a path
    [/s1/.../sn] of non-empty segments, the trail reads Home, [s1], ...,
    [sn]; the crumb at position [i] leads to [/s1/.../si], so the last one
    is the current folder; the trail shown after following a crumb is the
    trail up to that crumb; and Backspace leads where the crumb before
    the last one leads. *)
Theorem breadcrumbs_retrace_path (segs : list string) :
  Forall (fun s => s <> "" /\ MediaAuth.lacks "/" s = true) segs ->
  crumb_name <$> breadcrumbs ("/" +:+ join "/" segs) = "Home" :: segs
  /\ (forall i c,
        breadcrumbs ("/" +:+ join "/" segs) !! i = Some c ->
        crumb_path c = "/" +:+ join "/" (take i segs)
        /\ breadcrumbs (crumb_path c) = take (S i) (breadcrumbs ("/" +:+ join "/" segs)))
  /\ (segs <> [] ->
      crumb_path <$> breadcrumbs ("/" +:+ join "/" segs) !! (length segs - 1)%nat
      = Some (parent ("/" +:+ join "/" segs))).
Proof.
  intros Hall.
  assert (forall i c,
             breadcrumbs ("/" +:+ join "/" segs) !! i = Some c ->
             crumb_path c = "/" +:+ join "/" (take i segs)) as Hpath.
  { intros i c. rewrite (breadcrumbs_absolute segs Hall).
    destruct i as [|j]; [intros [= <-]; reflexivity|].
    rewrite lookup_cons, list_lookup_imap.
    destruct (segs !! j); intros [= <-]. reflexivity. }
  split; [|split].
  - rewrite (breadcrumbs_absolute segs Hall). cbn [fmap list_fmap crumb_name]. f_equal.
    rewrite fmap_imap. apply list_eq. intros k. rewrite list_lookup_imap.
    destruct (segs !! k); reflexivity.
  - intros i c Hc. split; [exact (Hpath i c Hc)|].
    rewrite (Hpath i c Hc).
    rewrite (breadcrumbs_absolute (take i segs)) by (apply Forall_take; exact Hall).
    rewrite (breadcrumbs_absolute segs Hall). cbn [take]. f_equal.
    apply list_eq. intros k. rewrite list_lookup_imap, !lookup_take.
    destruct (decide (k < i)%nat) as [Hk|Hk]; [|reflexivity].
    rewrite list_lookup_imap. destruct (segs !! k); [|reflexivity].
    cbn [fmap option_fmap option_map]. rewrite take_take.
    replace (S k `min` i)%nat with (S k) by lia. reflexivity.
  - intros Hne. rewrite (parent_absolute segs Hne Hall).
    destruct (lookup_lt_is_Some_2 (breadcrumbs ("/" +:+ join "/" segs)) (length segs - 1))
      as [c Hc].
    { rewrite (breadcrumbs_absolute segs Hall). cbn [length]. rewrite length_imap. lia. }
    rewrite Hc. cbn [fmap option_fmap option_map]. rewrite (Hpath _ c Hc).
    rewrite removelast_firstn_len. rewrite Nat.sub_1_r. reflexivity.
Qed.

Lemma breadcrumbs_retrace_path_witness :
  crumb_name <$> breadcrumbs ("/" +:+ join "/" ["Goa2024"; "day 1"]) = ["Home"; "Goa2024"; "day 1"]
  /\ (forall i c,
        breadcrumbs ("/" +:+ join "/" ["Goa2024"; "day 1"]) !! i = Some c ->
        crumb_path c = "/" +:+ join "/" (take i ["Goa2024"; "day 1"])
        /\ breadcrumbs (crumb_path c)
           = take (S i) (breadcrumbs ("/" +:+ join "/" ["Goa2024"; "day 1"])))
  /\ (["Goa2024"; "day 1"] <> [] ->
      crumb_path <$> breadcrumbs ("/" +:+ join "/" ["Goa2024"; "day 1"])
                       !! (length ["Goa2024"; "day 1"] - 1)%nat
      = Some (parent ("/" +:+ join "/" ["Goa2024"; "day 1"]))).
Proof.
  apply (breadcrumbs_retrace_path ["Goa2024"; "day 1"]).
  repeat constructor; discriminate.
Defined.

(** **** Selection *)

Lemma add_range_in_range files n :
  forall s i, (i + n <= length files)%nat ->
    exists s', add_range files s i n = Some s'
      /\ forall p, p ∈ s' <->
           p ∈ s \/ exists j f, (i <= j < i + n)%nat /\ files !! j = Some f /\ path f = p.
Proof.
  induction n as [|n IH]; intros s i Hlen.
  - exists s. split; [reflexivity|]. intros p. split; [auto|].
    intros [H | (j & f & Hj & _)]; [exact H|lia].
  - cbn [add_range].
    destruct (lookup_lt_is_Some_2 files i ltac:(lia)) as [f Hf]. rewrite Hf.
    destruct (IH (s ∪ {[path f]}) (S i) ltac:(lia)) as (s' & Hs' & Hmem).
    exists s'. split; [exact Hs'|]. intros p. rewrite Hmem, elem_of_union, elem_of_singleton.
    split.
    + intros [[H | ->] | (j & g & Hj & Hg & Hp)].
      * left; exact H.
      * right. exists i, f. split; [lia|]. auto.
      * right. exists j, g. split; [lia|]. auto.
    + intros [H | (j & g & Hj & Hg & Hp)]; [left; left; exact H|].
      destruct (decide (j = i)) as [->|Hne].
      * left. right. rewrite Hf in Hg. injection Hg as <-. symmetry. exact Hp.
      * right. exists j, g. split; [lia|]. auto.
Qed.

Lemma add_range_out_of_range files n :
  forall s i, (length files < i + n)%nat -> (0 < n)%nat -> add_range files s i n = None.
Proof.
  induction n as [|n IH]; intros s i Hlen Hn; [lia|].
  cbn [add_range]. destruct (files !! i) as [f|] eqn:Hf; [|reflexivity].
  apply lookup_lt_Some in Hf. apply IH; lia.
Qed.

(** A shift-click with an anchor adds the files between the anchor and
    the clicked card, both included and in either direction, and moves
    the anchor to the clicked card.  When the anchor or the index lies
    outside the listing the handler throws, and nothing is written. *)
Theorem shift_click_selects_range (b : Browser) (l index : nat) (filePath : string)
    (e : Modifiers) :
  shiftKey e = true -> lastIdx b = Some l ->
  ((l < length (files (dash b)))%nat -> (index < length (files (dash b)))%nat ->
   exists b',
     handleSelect filePath index e b = Some b'
     /\ lastIdx b' = Some index /\ previewFile b' = previewFile b
     /\ files (dash b') = files (dash b)
     /\ forall p, p ∈ selected (dash b') <->
          p ∈ selected (dash b)
          \/ exists j f, (Nat.min l index <= j <= Nat.max l index)%nat
                         /\ files (dash b) !! j = Some f /\ path f = p)
  /\ ((length (files (dash b)) <= l)%nat \/ (length (files (dash b)) <= index)%nat ->
      handleSelect filePath index e b = None).
Proof.
  intros Hshift Hanchor. unfold handleSelect. rewrite Hshift, Hanchor. cbv zeta. split.
  - intros Hl Hi.
    destruct (add_range_in_range (files (dash b)) (S (Nat.max l index) - Nat.min l index)
                (selected (dash b)) (Nat.min l index) ltac:(lia)) as (s' & -> & Hmem).
    eexists. split; [reflexivity|]. cbn [lastIdx previewFile dash with_selected files selected].
    repeat split; try reflexivity.
    + intros Hp. apply Hmem in Hp as [Hp | (j & f & Hj & Hf)]; [left; exact Hp|].
      right. exists j, f. split; [lia|exact Hf].
    + intros [Hp | (j & f & Hj & Hf)]; apply Hmem; [left; exact Hp|].
      right. exists j, f. split; [lia|exact Hf].
  - intros Hout.
    rewrite (add_range_out_of_range (files (dash b)) (S (Nat.max l index) - Nat.min l index)
               (selected (dash b)) (Nat.min l index)) by lia.
    reflexivity.
Qed.

Lemma shift_click_selects_range_witness :
  ((0 < length (files (dash album)))%nat ->
   (2 < length (files (dash album)))%nat ->
   exists b',
     handleSelect "/Goa2024/sunset.jpg" 2 with_shift
       {| dash := dash album; lastIdx := Some 0%nat; previewFile := None |} = Some b'
     /\ lastIdx b' = Some 2%nat /\ previewFile b' = None
     /\ files (dash b') = files (dash album)
     /\ forall p, p ∈ selected (dash b') <->
          p ∈ selected (dash album)
          \/ exists j f, (Nat.min 0 2 <= j <= Nat.max 0 2)%nat
                         /\ files (dash album) !! j = Some f /\ path f = p)
  /\ ((length (files (dash album)) <= 0)%nat \/ (length (files (dash album)) <= 2)%nat ->
      handleSelect "/Goa2024/sunset.jpg" 2 with_shift
        {| dash := dash album; lastIdx := Some 0%nat; previewFile := None |} = None).
Proof.
  apply (shift_click_selects_range
           {| dash := dash album; lastIdx := Some 0%nat; previewFile := None |}
           0 2 "/Goa2024/sunset.jpg" with_shift); reflexivity.
Defined.

(** A click with Ctrl or Cmd (and no Shift) toggles the one file and
    leaves every other file as it was, so a second such click on the same
    file restores the selection. *)
Theorem ctrl_click_toggles (b : Browser) (filePath : string) (i j : nat) (e : Modifiers) :
  shiftKey e = false -> ctrlKey e || metaKey e = true ->
  exists b1 b2,
    handleSelect filePath i e b = Some b1
    /\ (filePath ∈ selected (dash b1) <-> filePath ∉ selected (dash b))
    /\ (forall q, q <> filePath -> q ∈ selected (dash b1) <-> q ∈ selected (dash b))
    /\ lastIdx b1 = Some i
    /\ handleSelect filePath j e b1 = Some b2
    /\ selected (dash b2) = selected (dash b).
Proof.
  intros Hshift Hctrl. unfold handleSelect. rewrite Hshift, Hctrl. cbv zeta.
  destruct (decide (filePath ∈ selected (dash b))) as [Hin|Hout];
    (do 2 eexists; split; [reflexivity|]);
    cbn [dash with_selected selected lastIdx].
  - rewrite (bool_decide_eq_true_2 _ Hin).
    rewrite bool_decide_eq_false_2 by set_solver.
    split; [set_solver|]. split; [set_solver|]. split; [reflexivity|].
    split; [reflexivity|]. cbn [dash with_selected selected].
    apply set_eq. intros q. destruct (decide (q = filePath)); set_solver.
  - rewrite (bool_decide_eq_false_2 _ Hout).
    rewrite bool_decide_eq_true_2 by set_solver.
    split; [set_solver|]. split; [set_solver|]. split; [reflexivity|].
    split; [reflexivity|]. cbn [dash with_selected selected].
    set_solver.
Qed.

Lemma ctrl_click_toggles_witness :
  exists b1 b2,
    handleSelect "/Goa2024/palms.jpg" 1 with_ctrl album = Some b1
    /\ ("/Goa2024/palms.jpg" ∈ selected (dash b1) <-> "/Goa2024/palms.jpg" ∉ selected (dash album))
    /\ (forall q, q <> "/Goa2024/palms.jpg" -> q ∈ selected (dash b1) <-> q ∈ selected (dash album))
    /\ lastIdx b1 = Some 1%nat
    /\ handleSelect "/Goa2024/palms.jpg" 1 with_ctrl b1 = Some b2
    /\ selected (dash b2) = selected (dash album).
Proof.
  apply (ctrl_click_toggles album "/Goa2024/palms.jpg" 1 1 with_ctrl); reflexivity.
Defined.

Lemma listed_lookup b i f : files (dash b) !! i = Some f -> path f ∈ listed b.
Proof.
  intros Hf. unfold listed. apply list_elem_of_fmap. exists f. split; [reflexivity|].
  apply list_elem_of_lookup. exists i. exact Hf.
Qed.

Lemma handleSelect_listed b f i e b' :
  files (dash b) !! i = Some f ->
  selected (dash b) ⊆ list_to_set (listed b) ->
  handleSelect (path f) i e b = Some b' ->
  selected (dash b') ⊆ list_to_set (listed b') /\ listed b' = listed b.
Proof.
  intros Hf Hsub. pose proof (listed_lookup b i f Hf) as Hin.
  unfold handleSelect.
  destruct (shiftKey e) eqn:Hshift, (lastIdx b) as [l|] eqn:Hanchor; cbv zeta.
  1: { destruct (add_range (files (dash b)) (selected (dash b)) (Nat.min l i)
                   (S (Nat.max l i) - Nat.min l i)) as [s'|] eqn:Hrange; [|discriminate].
       intros [= <-]. split; [|reflexivity].
       change (s' ⊆ list_to_set (listed b)).
       destruct (decide (Nat.max l i < length (files (dash b)))%nat) as [Hlt|Hge].
       - destruct (add_range_in_range (files (dash b)) (S (Nat.max l i) - Nat.min l i)
                     (selected (dash b)) (Nat.min l i) ltac:(lia)) as (s'' & Hs'' & Hmem).
         rewrite Hrange in Hs''. injection Hs'' as <-.
         intros p Hp. apply Hmem in Hp as [Hp | (j & g & _ & Hg & <-)]; [exact (Hsub p Hp)|].
         apply elem_of_list_to_set. exact (listed_lookup b j g Hg).
       - rewrite add_range_out_of_range in Hrange by lia. discriminate. }
  all: destruct (ctrlKey e || metaKey e);
    intros [= <-]; (split; [|reflexivity]);
    cbn [dash with_selected selected];
    change (listed _) with (listed b);
    repeat case_bool_decide; cbn [andb];
    try destruct (base.size (selected (dash b)) =? 1)%nat;
    set_solver.
Qed.

(** The handlers keep the selection inside the listing: if every
    selected path is a listed file, it still is after any click on a
    card, after "select all", after Escape and any other key, and after a
    navigation. *)
Theorem selection_stays_listed (b : Browser) :
  selected (dash b) ⊆ list_to_set (listed b) ->
  (forall i e b', click_file i e b = Some b' ->
                  selected (dash b') ⊆ list_to_set (listed b'))
  /\ selected (dash (selectAll b)) ⊆ list_to_set (listed (selectAll b))
  /\ (forall e, selected (dash (handler e b)) ⊆ list_to_set (listed (handler e b)))
  /\ (forall to, selected (dash (navigate to b)) ⊆ list_to_set (listed (navigate to b))).
Proof.
  intros Hsub.
  assert (selected (dash (selectAll b)) ⊆ list_to_set (listed (selectAll b))) as Hall.
  { unfold selectAll.
    destruct (base.size (selected (dash b)) =? length (files (dash b)))%nat;
      cbn [select dash with_selected selected]; set_solver. }
  assert (forall b0, selected (dash b0) ⊆ list_to_set (listed b0) ->
            forall to, selected (dash (navigate to b0)) ⊆ list_to_set (listed (navigate to b0)))
    as Hnav.
  { intros b0 H0 to. unfold navigate. cbv zeta.
    destruct (String.eqb to (currentPath (dash b0))),
             (String.eqb (search (dash b0)) "");
      cbn [negb orb]; first [exact H0 | cbn; set_solver]. }
  split; [|split; [exact Hall|split; [|exact (Hnav b Hsub)]]].
  - intros i e b'. unfold click_file.
    destruct (files (dash b) !! i) as [f|] eqn:Hf; [|intros [= <-]; exact Hsub].
    intros Hsel. exact (proj1 (handleSelect_listed b f i e b' Hf Hsub Hsel)).
  - intros e. unfold handler.
    destruct (String.eqb (tagName e) "INPUT" || String.eqb (tagName e) "TEXTAREA");
      [exact Hsub|].
    cbv zeta.
    set (b1 := if (ctrlKey (mods e) || metaKey (mods e)) && String.eqb (key e) "a"
               then selectAll b else b).
    assert (selected (dash b1) ⊆ list_to_set (listed b1)) as H1.
    { unfold b1. destruct ((ctrlKey (mods e) || metaKey (mods e)) && String.eqb (key e) "a");
        [exact Hall|exact Hsub]. }
    set (b2 := if String.eqb (key e) "Escape" then select ∅ b1 else b1).
    assert (selected (dash b2) ⊆ list_to_set (listed b2)) as H2.
    { unfold b2. destruct (String.eqb (key e) "Escape"); [|exact H1].
      cbn [select dash with_selected selected]. set_solver. }
    destruct (String.eqb (key e) "Backspace" && negb (String.eqb (currentPath (dash b)) "/"));
      [apply Hnav; exact H2|exact H2].
Qed.

Lemma selection_stays_listed_witness :
  (forall i e b', click_file i e album = Some b' ->
                  selected (dash b') ⊆ list_to_set (listed b'))
  /\ selected (dash (selectAll album)) ⊆ list_to_set (listed (selectAll album))
  /\ (forall e, selected (dash (handler e album)) ⊆ list_to_set (listed (handler e album)))
  /\ (forall to, selected (dash (navigate to album)) ⊆ list_to_set (listed (navigate to album))).
Proof. apply (selection_stays_listed album). cbn. set_solver. Defined.

(** In a listing without duplicate paths, and with the selection inside
    it, "select all" does what its label says: it selects exactly the
    listed files, unless exactly those are selected already, and then it
    clears the selection. *)
Theorem selectAll_selects_the_listing (b : Browser) :
  NoDup (listed b) -> selected (dash b) ⊆ list_to_set (listed b) ->
  (selected (dash b) = list_to_set (listed b) -> selected (dash (selectAll b)) = ∅)
  /\ (selected (dash b) <> list_to_set (listed b) ->
      selected (dash (selectAll b)) = list_to_set (listed b))
  /\ files (dash (selectAll b)) = files (dash b)
  /\ lastIdx (selectAll b) = lastIdx b.
Proof.
  intros Hnodup Hsub.
  assert (base.size (list_to_set (listed b) : gset string) = length (files (dash b))) as Hsize.
  { rewrite (size_list_to_set (listed b) Hnodup). unfold listed. apply length_fmap. }
  unfold selectAll.
  destruct (Nat.eqb_spec (base.size (selected (dash b))) (length (files (dash b)))) as [Heq|Hne];
    cbn [select dash with_selected selected files lastIdx];
    (split; [|split; [|split; reflexivity]]).
  - reflexivity.
  - intros Hdiff. exfalso. apply Hdiff.
    apply set_subseteq_size_eq; [exact Hsub|]. rewrite Hsize, Heq. reflexivity.
  - intros Hsame. exfalso. apply Hne. rewrite Hsame. exact Hsize.
  - reflexivity.
Qed.

Lemma selectAll_selects_the_listing_witness :
  (selected (dash album) = list_to_set (listed album) -> selected (dash (selectAll album)) = ∅)
  /\ (selected (dash album) <> list_to_set (listed album) ->
      selected (dash (selectAll album)) = list_to_set (listed album))
  /\ files (dash (selectAll album)) = files (dash album)
  /\ lastIdx (selectAll album) = lastIdx album.
Proof.
  apply (selectAll_selects_the_listing album).
  - unfold listed, album; cbn. repeat constructor; set_solver.
  - cbn. set_solver.
Defined.

(** **** A listing that arrives later *)

Lemma loadFiles_keeps fetch d w :
  exists w' d', loadFiles fetch d w = (w', Api.Return d')
                /\ selected d' = selected d /\ currentPath d' = currentPath d.
Proof.
  unfold loadFiles. cbv zeta.
  destruct (Api.getFiles fetch _ w) as [w' [[]|e]];
    do 2 eexists; (split; [reflexivity|split; reflexivity]).
Qed.

(** When a listing arrives (after a search, a filter, a sort or a
    refresh in the same folder) the selection, the anchor of the
    shift-click and the previewed file stay as they were, whatever the
    new listing holds.  So an anchor at or past the end of a shorter
    listing makes every shift-click throw. *)
Theorem listing_arrival_keeps_selection (fetch : Api.Request -> Api.Fetched)
    (b : Browser) (w : Api.World) :
  exists w' b',
    reload fetch b w = (w', Api.Return b')
    /\ selected (dash b') = selected (dash b)
    /\ lastIdx b' = lastIdx b
    /\ previewFile b' = previewFile b
    /\ (forall l, lastIdx b = Some l -> (length (files (dash b')) <= l)%nat ->
        forall filePath index e, shiftKey e = true -> handleSelect filePath index e b' = None).
Proof.
  unfold reload. destruct (loadFiles_keeps fetch (dash b) w) as (w' & d' & -> & Hsel & _).
  do 2 eexists. split; [reflexivity|]. cbn [dash lastIdx previewFile].
  split; [exact Hsel|]. split; [reflexivity|]. split; [reflexivity|].
  intros l Hl Hshort filePath index e Hshift. unfold handleSelect.
  cbn [dash lastIdx]. rewrite Hshift, Hl. cbv zeta.
  rewrite add_range_out_of_range by lia. reflexivity.
Qed.

(** **** Preview *)

Lemma findIndex_from_listed arr :
  forall i k f,
    NoDup (path <$> arr) -> arr !! i = Some f ->
    findIndex_from (fun g => String.eqb (path g) (path f)) arr k = k + Z.of_nat i.
Proof.
  induction arr as [|g rest IH]; intros i k f Hnodup Hf; [discriminate|].
  cbn [findIndex_from]. rewrite fmap_cons in Hnodup. apply NoDup_cons in Hnodup as [Hg Hrest].
  destruct i as [|j].
  - injection Hf as ->. rewrite String.eqb_refl. lia.
  - cbn in Hf. destruct (String.eqb_spec (path g) (path f)) as [Heq|_].
    + exfalso. apply Hg. rewrite Heq. apply list_elem_of_fmap. exists f.
      split; [reflexivity|]. apply list_elem_of_lookup. exists j. exact Hf.
    + rewrite (IH j (k + 1) f Hrest Hf). lia.
Qed.

Lemma findIndex_from_unlisted arr :
  forall k pf, path pf ∉ path <$> arr ->
    findIndex_from (fun g => String.eqb (path g) (path pf)) arr k = -1.
Proof.
  induction arr as [|g rest IH]; intros k pf Hout; [reflexivity|].
  cbn [findIndex_from]. rewrite fmap_cons in Hout. apply not_elem_of_cons in Hout as [Hne Hout].
  destruct (String.eqb_spec (path g) (path pf)) as [Heq|_]; [congruence|].
  apply IH. exact Hout.
Qed.

Lemma previewIdx_listed b i f :
  NoDup (listed b) -> files (dash b) !! i = Some f -> previewFile b = Some f ->
  previewIdx b = Z.of_nat i.
Proof.
  intros Hnodup Hf Hpf. unfold previewIdx, findIndex. rewrite Hpf.
  rewrite (findIndex_from_listed _ i 0 f Hnodup Hf). lia.
Qed.

(** In a listing without duplicate paths the preview walks the listing
    in order: from the file at position [i], Next shows the file at
    [i + 1] and Previous the one at [i - 1]; Previous after Next is back
    where it started; at either end the step does nothing, and the arrow
    buttons are shown exactly when there is a file to step to. *)
Theorem preview_walks_the_listing (b : Browser) (i : nat) (f : FileEntry) :
  NoDup (listed b) -> files (dash b) !! i = Some f -> previewFile b = Some f ->
  previewIdx b = Z.of_nat i
  /\ hasPrev b = bool_decide (0 < i)%nat
  /\ hasNext b = bool_decide (S i < length (files (dash b)))%nat
  /\ (forall g, files (dash b) !! S i = Some g ->
        previewFile (nextPreview b) = Some g /\ prevPreview (nextPreview b) = b)
  /\ (files (dash b) !! S i = None -> nextPreview b = b)
  /\ (forall j g, i = S j -> files (dash b) !! j = Some g ->
        previewFile (prevPreview b) = Some g)
  /\ (i = 0%nat -> prevPreview b = b).
Proof.
  intros Hnodup Hf Hpf. pose proof (previewIdx_listed b i f Hnodup Hf Hpf) as Hidx.
  pose proof (lookup_lt_Some _ _ _ Hf) as Hi.
  split; [exact Hidx|].
  split.
  { unfold hasPrev. rewrite Hidx. destruct (Z.ltb_spec 0 (Z.of_nat i));
      [rewrite bool_decide_eq_true_2 by lia|rewrite bool_decide_eq_false_2 by lia];
      reflexivity. }
  split.
  { unfold hasNext. rewrite Hidx.
    destruct (Z.ltb_spec (Z.of_nat i) (Z.of_nat (length (files (dash b))) - 1));
      [rewrite bool_decide_eq_true_2 by lia|rewrite bool_decide_eq_false_2 by lia];
      reflexivity. }
  split.
  { intros g Hg. pose proof (lookup_lt_Some _ _ _ Hg) as Hgi.
    assert (nextPreview b = setPreviewFile (Some g) b) as Hnext.
    { unfold nextPreview. rewrite Hidx.
      destruct (Z.ltb_spec (Z.of_nat i) (Z.of_nat (length (files (dash b))) - 1)); [|lia].
      replace (Z.to_nat (Z.of_nat i + 1)) with (S i) by lia. rewrite Hg. reflexivity. }
    rewrite Hnext. split; [reflexivity|].
    unfold prevPreview.
    rewrite (previewIdx_listed (setPreviewFile (Some g) b) (S i) g Hnodup Hg eq_refl).
    destruct (Z.ltb_spec 0 (Z.of_nat (S i))); [|lia].
    cbn [setPreviewFile dash lastIdx].
    replace (Z.to_nat (Z.of_nat (S i) - 1)) with i by lia. rewrite Hf.
    destruct b; cbn in *. subst. reflexivity. }
  split.
  { intros Hnone. apply lookup_ge_None_1 in Hnone. unfold nextPreview. rewrite Hidx.
    destruct (Z.ltb_spec (Z.of_nat i) (Z.of_nat (length (files (dash b))) - 1)); [lia|].
    reflexivity. }
  split.
  { intros j g -> Hg. unfold prevPreview. rewrite Hidx.
    destruct (Z.ltb_spec 0 (Z.of_nat (S j))); [|lia].
    replace (Z.to_nat (Z.of_nat (S j) - 1)) with j by lia. rewrite Hg. reflexivity. }
  intros ->. unfold prevPreview. rewrite Hidx. reflexivity.
Qed.

Lemma preview_walks_the_listing_witness :
  previewIdx (setPreviewFile (Some palms) album) = Z.of_nat 1
  /\ hasPrev (setPreviewFile (Some palms) album) = bool_decide (0 < 1)%nat
  /\ hasNext (setPreviewFile (Some palms) album)
     = bool_decide (2 < length (files (dash (setPreviewFile (Some palms) album))))%nat
  /\ (forall g, files (dash (setPreviewFile (Some palms) album)) !! 2%nat = Some g ->
        previewFile (nextPreview (setPreviewFile (Some palms) album)) = Some g
        /\ prevPreview (nextPreview (setPreviewFile (Some palms) album))
           = setPreviewFile (Some palms) album)
  /\ (files (dash (setPreviewFile (Some palms) album)) !! 2%nat = None ->
      nextPreview (setPreviewFile (Some palms) album) = setPreviewFile (Some palms) album)
  /\ (forall j g, 1%nat = S j -> files (dash (setPreviewFile (Some palms) album)) !! j = Some g ->
        previewFile (prevPreview (setPreviewFile (Some palms) album)) = Some g)
  /\ (1%nat = 0%nat ->
      prevPreview (setPreviewFile (Some palms) album) = setPreviewFile (Some palms) album).
Proof.
  apply (preview_walks_the_listing (setPreviewFile (Some palms) album) 1 palms).
  - unfold listed; cbn. repeat constructor; set_solver.
  - reflexivity.
  - reflexivity.
Defined.

(** A previewed file that is no longer in the listing (the listing
    changed under the open preview) has no Previous, and Previous does
    nothing; but Next is offered whenever the listing is not empty, and
    it jumps to the first listed file. *)
Theorem preview_of_unlisted_file (b : Browser) (pf : FileEntry) :
  previewFile b = Some pf -> path pf ∉ listed b ->
  previewIdx b = -1
  /\ hasPrev b = false /\ prevPreview b = b
  /\ hasNext b = negb (is_nil (files (dash b)))
  /\ previewFile (nextPreview b) = Some (default pf (head (files (dash b)))).
Proof.
  intros Hpf Hout.
  assert (previewIdx b = -1) as Hidx.
  { unfold previewIdx, findIndex. rewrite Hpf. apply findIndex_from_unlisted. exact Hout. }
  split; [exact Hidx|].
  unfold hasPrev, prevPreview, hasNext, nextPreview. rewrite Hidx.
  split; [reflexivity|]. split; [reflexivity|].
  destruct (files (dash b)) as [|g rest] eqn:Hfiles.
  - split; [reflexivity|]. cbn. exact Hpf.
  - cbn [length is_nil negb head default].
    destruct (Z.ltb_spec (-1) (Z.of_nat (S (length rest)) - 1)); [|lia].
    split; reflexivity.
Qed.

Lemma preview_of_unlisted_file_witness :
  previewIdx (setPreviewFile (Some photo_elsewhere) album) = -1
  /\ hasPrev (setPreviewFile (Some photo_elsewhere) album) = false
  /\ prevPreview (setPreviewFile (Some photo_elsewhere) album)
     = setPreviewFile (Some photo_elsewhere) album
  /\ hasNext (setPreviewFile (Some photo_elsewhere) album)
     = negb (is_nil (files (dash (setPreviewFile (Some photo_elsewhere) album))))
  /\ previewFile (nextPreview (setPreviewFile (Some photo_elsewhere) album))
     = Some (default photo_elsewhere
               (head (files (dash (setPreviewFile (Some photo_elsewhere) album))))).
Proof.
  apply (preview_of_unlisted_file (setPreviewFile (Some photo_elsewhere) album) photo_elsewhere).
  - reflexivity.
  - unfold listed; cbn. set_solver.
Defined.

(** **** Keyboard *)

Lemma parent_is_elsewhere segs :
  segs <> [] -> Forall (fun s => s <> "" /\ MediaAuth.lacks "/" s = true) segs ->
  String.eqb ("/" +:+ join "/" (removelast segs)) ("/" +:+ join "/" segs) = false.
Proof.
  intros Hne Hall. apply String.eqb_neq. intros Heq.
  assert (Forall (fun s => s <> "" /\ MediaAuth.lacks "/" s = true) (removelast segs)) as Hall'.
  { rewrite removelast_firstn_len. apply Forall_take. exact Hall. }
  destruct (decide (removelast segs = [])) as [Hnil|Hne'].
  - rewrite Hnil in Heq. pose proof (absolute_not_root segs Hne Hall) as Hroot.
    apply String.eqb_neq in Hroot. apply Hroot. symmetry. exact Heq.
  - apply (f_equal (split_on "/")) in Heq.
    rewrite (split_absolute _ Hne' (clean_lacks _ Hall')) in Heq.
    rewrite (split_absolute _ Hne (clean_lacks _ Hall)) in Heq.
    injection Heq as Heq. apply (f_equal (@length string)) in Heq.
    rewrite removelast_firstn_len, length_take in Heq.
    destruct segs; [contradiction|]. cbn [length] in Heq. lia.
Qed.

(** Backspace outside a text field leads one folder up: from
    [/s1/.../sn] to [/s1/.../s(n-1)], the root when [n] is 1.  The search
    text, the selection and the shift-click anchor are dropped and a load
    of the parent starts: the page shows the spinner (the old listing is
    kept in the state, not on the page) until the new listing arrives.
    An open preview stays open. *)
Theorem backspace_goes_up (token : option string) (e : KeyEvent) (b : Browser)
    (segs : list string) :
  String.eqb (tagName e) "INPUT" || String.eqb (tagName e) "TEXTAREA" = false ->
  key e = "Backspace" ->
  segs <> [] -> Forall (fun s => s <> "" /\ MediaAuth.lacks "/" s = true) segs ->
  currentPath (dash b) = "/" +:+ join "/" segs ->
  currentPath (dash (keydown e b)) = "/" +:+ join "/" (removelast segs)
  /\ search (dash (keydown e b)) = ""
  /\ selected (dash (keydown e b)) = ∅
  /\ lastIdx (keydown e b) = None
  /\ loading (dash (keydown e b)) = true
  /\ render token (dash (keydown e b)) = Spinner
  /\ files (dash (keydown e b)) = files (dash b)
  /\ previewFile (keydown e b) = previewFile b.
Proof.
  intros Htag Hkey Hne Hall Hpath.
  assert ((match previewFile b with Some _ => handleKey (key e) b | None => b end) = b) as Hprev.
  { rewrite Hkey. destruct (previewFile b); reflexivity. }
  unfold keydown. rewrite Hprev. unfold handler. rewrite Htag, Hkey.
  rewrite andb_false_r. cbn [String.eqb Ascii.eqb Bool.eqb andb]. cbv zeta.
  rewrite Hpath, (absolute_not_root segs Hne Hall). cbn [negb].
  rewrite (parent_absolute segs Hne Hall).
  unfold navigate. cbv zeta. rewrite Hpath, (parent_is_elsewhere segs Hne Hall).
  cbn [negb orb]. repeat split.
Qed.

Lemma backspace_goes_up_witness :
  currentPath (dash (keydown {| tagName := "BODY"; key := "Backspace"; mods := plain |} album))
    = "/" +:+ join "/" (removelast ["Goa2024"])
  /\ search (dash (keydown {| tagName := "BODY"; key := "Backspace"; mods := plain |} album)) = ""
  /\ selected (dash (keydown {| tagName := "BODY"; key := "Backspace"; mods := plain |} album)) = ∅
  /\ lastIdx (keydown {| tagName := "BODY"; key := "Backspace"; mods := plain |} album) = None
  /\ loading (dash (keydown {| tagName := "BODY"; key := "Backspace"; mods := plain |} album))
     = true
  /\ render (Some "jwt")
       (dash (keydown {| tagName := "BODY"; key := "Backspace"; mods := plain |} album))
     = Spinner
  /\ files (dash (keydown {| tagName := "BODY"; key := "Backspace"; mods := plain |} album))
     = files (dash album)
  /\ previewFile (keydown {| tagName := "BODY"; key := "Backspace"; mods := plain |} album)
     = previewFile album.
Proof.
  apply (backspace_goes_up (Some "jwt")
           {| tagName := "BODY"; key := "Backspace"; mods := plain |} album ["Goa2024"]);
    [reflexivity | reflexivity | discriminate | repeat constructor; discriminate | reflexivity].
Defined.

End Browse.
